(** * Session, upload and conversation coordination of the document-QA client

    A shallow embedding of the React components of the repository (the
    axios gateway, the route guards, the upload views, the file list and
    the chat views) together with the properties the specification states
    about them.

    Conventions.
    - A JavaScript string is the list of its UTF-16 code units.
    - [localStorage] is a finite map from keys to strings; [getItem] of an
      absent key is [None] (JavaScript [null]).
    - An event handler is a function from the component state (and the
      storage, where it touches it) to the new state and the list of the
      effects it performed, in program order.
    - An [async] handler that awaits one backend call takes the outcome of
      that call as an argument; where interleaving of handlers matters (the
      chat views) the handler is split at its [await] and the outstanding
      calls are part of the state.
    - The state a handler sets is the state the next event sees: React
      renders between two user events, so the closure of the next handler
      holds the updated values.
    - The repository holds several variants of the same views; each is
      embedded under a name of its own. *)

From Stdlib Require Import ZArith NArith List String Ascii Bool Lia.
From stdpp Require Import gmap strings list fin_maps pretty.

#[local] Set Warnings "-register-all".

Local Open Scope Z_scope.

(* ===================================================================== *)
(** * JavaScript strings *)
(* ===================================================================== *)

Module JS.

(** The code units of an ASCII literal of the source. *)
Definition lit (s : string) : list N :=
  map N_of_ascii (list_ascii_of_string s).

(** [s1 === s2] on strings. *)
Definition str_eqb (s1 s2 : list N) : bool := bool_decide (s1 = s2).

(** Truthiness of a string-or-null value such as [getItem] returns. *)
Definition truthy (v : option (list N)) : bool :=
  match v with
  | None => false
  | Some [] => false
  | Some (_ :: _) => true
  end.

(** WhiteSpace and LineTerminator code units, the ones
    [String.prototype.trim] strips. *)
Definition is_space (c : N) : bool :=
  ((9 <=? c) && (c <=? 13) || (c =? 32) || (c =? 160) || (c =? 5760)
   || ((8192 <=? c) && (c <=? 8202)) || (c =? 8232) || (c =? 8233)
   || (c =? 8239) || (c =? 8287) || (c =? 12288) || (c =? 65279))%N.

Fixpoint trim_start (s : list N) : list N :=
  match s with
  | c :: r => if is_space c then trim_start r else s
  | [] => []
  end.

Definition trim (s : list N) : list N :=
  rev (trim_start (rev (trim_start s))).

(** Decimal digits of a non-negative number, as template literals
    print an integer. *)
Fixpoint digits (fuel : nat) (n : N) (acc : list N) : list N :=
  match fuel with
  | O => acc
  | S f =>
      let acc' := (48 + n mod 10)%N :: acc in
      if (n <? 10)%N then acc' else digits f (n / 10)%N acc'
  end.

Definition of_N (n : N) : list N := digits (S (N.to_nat (N.log2 n))) n [].

Definition of_Z (z : Z) : list N :=
  if z <? 0 then 45%N :: of_N (Z.to_N (- z)) else of_N (Z.to_N z).

End JS.

(* ===================================================================== *)
(** * The browser: localStorage, location, and the effects of a handler *)
(* ===================================================================== *)

(** What a handler does to the outside, in the order in which it happens.
    [SetTimeout ms] is the scheduling of a timer; what its callback does
    follows it in the list. [Sleep ms] is an awaited timer promise. *)
Inductive effect :=
| RemoveItem (key : string)
| SetItem (key : string) (value : list N)
| SetLocation (href : string)            (* window.location.href = ... *)
| Navigate (path : string)               (* navigate(...) of the router *)
| HttpGet (path : string)
| HttpPost (path : string) (field : string) (fileName : list N) (size : Z)
| HttpPostJson (path : string) (key : string) (value : list N)
| Sleep (ms : Z)
| SetTimeout (ms : Z)
| Alert (text : list N)
| ConsoleError.

Definition is_removal (key : string) (e : effect) : bool :=
  match e with
  | RemoveItem k => String.eqb k key
  | _ => false
  end.

Definition count (p : effect -> bool) (t : list effect) : nat :=
  length (List.filter p t).

Module Storage.

Definition getItem (key : string) (ls : gmap string (list N))
  : option (list N) := ls !! key.

Definition setItem (key : string) (v : list N) (ls : gmap string (list N))
  : gmap string (list N) := <[key := v]> ls.

Definition removeItem (key : string) (ls : gmap string (list N))
  : gmap string (list N) := delete key ls.

(** A write to the storage, and a sequence of writes. *)
Inductive op :=
| Set_ (key : string) (v : list N)
| Remove (key : string).

Definition apply (o : op) (ls : gmap string (list N))
  : gmap string (list N) :=
  match o with
  | Set_ k v => setItem k v ls
  | Remove k => removeItem k ls
  end.

Definition writes (key : string) (o : op) : bool :=
  match o with
  | Set_ k _ => String.eqb k key
  | Remove _ => false
  end.

End Storage.

(** The part of the browser the gateway and the guards see. *)
Record Browser := mkBrowser {
  localStorage : gmap string (list N);
  location_href : string
}.

(* ===================================================================== *)
(** * The axios gateway (services/api.js; its two copies are the second
      halves of src/App.js and of unnamed/part_003) *)
(* ===================================================================== *)

(** An axios response and an axios error, with the fields the code reads. *)
Record Response := mkResponse {
  status : Z;
  data_error : option (list N)       (* response.data?.error *)
}.

Record AxiosError := mkError {
  code : option (list N);            (* 'ECONNABORTED' on a timeout *)
  response : option Response;        (* absent when no answer arrived *)
  request : bool;                    (* the request was sent *)
  message : list N
}.

Definition is_unauthorized (error : AxiosError) : bool :=
  match response error with
  | Some r => status r =? 401
  | None => false
  end.

Module Api.

(** The request interceptor: the header it attaches, if any. *)
Definition request_interceptor (b : Browser) : option (list N) :=
  match Storage.getItem "token" (localStorage b) with
  | Some (c :: t) => Some (JS.lit "Bearer " ++ c :: t)
  | _ => None
  end.

(** The response interceptor's error branch, as in the copy in
    src/App.js: the browser afterwards, the effects, and the error the
    returned promise is rejected with. *)
Definition response_error (error : AxiosError) (b : Browser)
  : Browser * list effect * AxiosError :=
  if is_unauthorized error then
    ({| localStorage := Storage.removeItem "token" (localStorage b);
        location_href := "/login" |},
     [RemoveItem "token"; SetLocation "/login"],
     error)
  else (b, [], error).

(** The copy in unnamed/part_003, which also forgets the user name. *)
Definition response_error' (error : AxiosError) (b : Browser)
  : Browser * list effect * AxiosError :=
  if is_unauthorized error then
    ({| localStorage :=
          Storage.removeItem "username"
            (Storage.removeItem "token" (localStorage b));
        location_href := "/login" |},
     [RemoveItem "token"; RemoveItem "username"; SetLocation "/login"],
     error)
  else (b, [], error).

End Api.

(* ===================================================================== *)
(** * Route guards *)
(* ===================================================================== *)

(** What the router ends with for a requested path. *)
Inductive decision :=
| Render                       (* the element of the route is shown *)
| Redirect (path : string)     (* <Navigate to=...> or navigate(...) *)
| NoMatch.                     (* no route has the path *)

Definition denies (d : decision) : bool :=
  match d with
  | Redirect _ => true
  | Render | NoMatch => false
  end.

(** src/App.js, the application whose login form sets the
    [isAuthenticated] flag. *)
Module App.

(** [ProtectedRoute] of App.js. *)
Definition ProtectedRoute (ls : gmap string (list N)) : decision :=
  let isAuthenticated :=
    match Storage.getItem "isAuthenticated" ls with
    | Some v => JS.str_eqb v (JS.lit "true")
    | None => false
    end in
  if isAuthenticated then Render else Redirect "/".

(** [PublicRoute] of App.js. *)
Definition PublicRoute (ls : gmap string (list N)) : decision :=
  let isAuthenticated :=
    match Storage.getItem "isAuthenticated" ls with
    | Some v => JS.str_eqb v (JS.lit "true")
    | None => false
    end in
  if negb isAuthenticated then Render else Redirect "/upload".

(** The routes of this App.js: the login page is public, the upload and
    the chat page are wrapped in [ProtectedRoute], every other path goes
    to the login page. *)
Definition route (ls : gmap string (list N)) (path : string) : decision :=
  if String.eqb path "/" then PublicRoute ls
  else if String.eqb path "/upload" then ProtectedRoute ls
  else if String.eqb path "/chat" then ProtectedRoute ls
  else Redirect "/".

End App.

(** frontend/src/App.js, the application with the navigation bar. *)
Module AppPlain.

(** Its routes: no route consults the storage. *)
Definition route (path : string) : decision :=
  if String.eqb path "/" then Redirect "/login"
  else if String.eqb path "/login" then Render
  else if String.eqb path "/upload" then Render
  else if String.eqb path "/chatbot" then Render
  else NoMatch.

End AppPlain.

(** The application with the ChatUpload view (App.js in unnamed/part_002,
    the view in chatUpload.jsx and, with retries, in unnamed/part_005). *)
Module ChatUploadGuard.

(** The mount effect of ChatUpload: without a token the view leaves for
    the login view, otherwise it stays and fetches the file list. *)
Definition on_mount (ls : gmap string (list N)) : decision :=
  let token := Storage.getItem "token" ls in
  if negb (JS.truthy token) then Redirect "/login" else Render.

(** The same effect in unnamed/part_005, which spells the path [/Login]
    (the router matches paths without regard to case). *)
Definition on_mount_retry (ls : gmap string (list N)) : decision :=
  let token := Storage.getItem "token" ls in
  if negb (JS.truthy token) then Redirect "/Login" else Render.

(** The routes of its App.js; the ChatUpload view runs its mount effect
    when it is shown. *)
Definition route (ls : gmap string (list N)) (path : string) : decision :=
  if String.eqb path "/" then Redirect "/login"
  else if String.eqb path "/login" then Render
  else if String.eqb path "/register" then Render
  else if String.eqb path "/chatUpload" then on_mount ls
  else NoMatch.

End ChatUploadGuard.

(* ===================================================================== *)
(** * Logout handlers *)
(* ===================================================================== *)

Module Logout.

(** Navbar.handleLogout of unnamed/part_007: removes the token only. *)
Definition Navbar_handleLogout (ls : gmap string (list N))
  : gmap string (list N) * list effect :=
  (Storage.removeItem "token" ls, [RemoveItem "token"; Navigate "/login"]).

(** Navbar.handleLogout of unnamed/part_006: removes token and user
    name. *)
Definition Navbar_handleLogout' (ls : gmap string (list N))
  : gmap string (list N) * list effect :=
  (Storage.removeItem "username" (Storage.removeItem "token" ls),
   [RemoveItem "token"; RemoveItem "username"; Navigate "/login"]).

(** ChatUpload.handleLogout (chatUpload.jsx and unnamed/part_005): keeps
    localStorage, only navigates away. *)
Definition ChatUpload_handleLogout (ls : gmap string (list N))
  : gmap string (list N) * list effect :=
  (ls, [Navigate "/login"]).

(** handleLogout of the Chatbot and Upload views guarded by
    [ProtectedRoute] (unnamed/part_003 and unnamed/part_004). *)
Definition Chatbot_handleLogout (ls : gmap string (list N))
  : gmap string (list N) * list effect :=
  (Storage.removeItem "filesUploaded"
     (Storage.removeItem "username"
        (Storage.removeItem "isAuthenticated" ls)),
   [RemoveItem "isAuthenticated"; RemoveItem "username";
    RemoveItem "filesUploaded"; Navigate "/"]).

End Logout.

(* ===================================================================== *)
(** * Backend outcomes *)
(* ===================================================================== *)

(** What an awaited axios call ends with. *)
Inductive outcome (A : Type) :=
| Resolved (res : A)
| Rejected (err : AxiosError).
Arguments Resolved {A} res.
Arguments Rejected {A} err.

(** A selected file, with the fields the validation reads. *)
Record File := mkFile {
  name : list N;
  size : Z;
  type : list N
}.

(** The body of an upload acknowledgement: [res.data?.message]. *)
Record UploadBody := mkUploadBody {
  upload_message : option (list N)
}.

(** A document of the file list. *)
Record DocumentRecord := mkDocument {
  doc_id : Z;
  filename : list N
}.

(** The body of a file-list response; [files] is [None] when the body has
    no (or a falsy) [files] field. [data] is [None] when [res.data] is null
    or undefined, in which case reading [res.data.files] throws. *)
Record FilesBody := mkFilesBody {
  files : option (list DocumentRecord)
}.

Record FilesResponse := mkFilesResponse {
  data : option FilesBody
}.

Definition timed_out (err : AxiosError) : bool :=
  match code err with
  | Some c => JS.str_eqb c (JS.lit "ECONNABORTED")
  | None => false
  end.

(** [err.response?.data?.error], as a truthy value or nothing. *)
Definition payload_error (err : AxiosError) : option (list N) :=
  match response err with
  | Some r =>
      match data_error r with
      | Some (c :: m) => Some (c :: m)
      | _ => None
      end
  | None => None
  end.

(* ===================================================================== *)
(** * The Upload view with validation and progress (unnamed/part_000) *)
(* ===================================================================== *)

Module Upload.

Record State := mkState {
  file : option File;
  isLoading : bool;
  error : list N;
  success : bool;
  progress : Z
}.

Definition initial : State :=
  {| file := None; isLoading := false; error := [];
     success := false; progress := 0 |}.

(** The size limit of [handleFileChange]: 5MB. *)
Definition MAX_SIZE : Z := 5 * 1024 * 1024.

(** [handleFileChange]: [selectedFile] is [e.target.files[0]], [None]
    when the picker was dismissed. *)
Definition handleFileChange (selectedFile : option File) (st : State)
  : State * list effect :=
  match selectedFile with
  | Some f =>
      if size f >? MAX_SIZE then
        ({| file := file st; isLoading := isLoading st;
            error := JS.lit "File size exceeds 5MB limit";
            success := success st; progress := progress st |}, [])
      else
        ({| file := Some f; isLoading := isLoading st; error := [];
            success := false; progress := 0 |}, [])
  | None =>
      ({| file := None; isLoading := isLoading st; error := [];
          success := false; progress := 0 |}, [])
  end.

(** The message the [catch] block of [handleSubmit] shows. *)
Definition failure_text (err : AxiosError) : list N :=
  if timed_out err then
    JS.lit "Processing took too long. Try a smaller file."
  else
    match payload_error err with
    | Some m => m
    | None =>
        match message err with
        | c :: m => c :: m
        | [] => JS.lit "Upload failed. Please try again."
        end
    end.

(** [handleSubmit], run to completion. [percents] are the values the
    progress observer computed during the transfer, [result] is what the
    awaited [api.post] ended with. *)
Definition handleSubmit (percents : list Z) (result : outcome UploadBody)
    (st : State) : State * list effect :=
  match file st with
  | None =>
      ({| file := None; isLoading := isLoading st;
          error := JS.lit "Please select a file";
          success := success st; progress := progress st |}, [])
  | Some f =>
      let sent := HttpPost "/upload" "document" (name f) (size f) in
      match result with
      | Resolved _ =>
          ({| file := Some f; isLoading := false; error := [];
              success := true; progress := List.last percents 0 |},
           [sent; SetTimeout 1500; Navigate "/chatbot"])
      | Rejected err =>
          ({| file := Some f; isLoading := false;
              error := failure_text err;
              success := success st; progress := List.last percents 0 |},
           [sent])
      end
  end.

(** What the user does to the view. *)
Inductive event :=
| FileChange (selectedFile : option File)
| Submit (percents : list Z) (result : outcome UploadBody).

Definition step (ev : event) (st : State) : State * list effect :=
  match ev with
  | FileChange f => handleFileChange f st
  | Submit ps r => handleSubmit ps r st
  end.

(** The view after a sequence of events, and everything it did. *)
Fixpoint run (evs : list event) (st : State) : State * list effect :=
  match evs with
  | [] => (st, [])
  | ev :: rest =>
      let '(st1, t1) := step ev st in
      let '(st2, t2) := run rest st1 in
      (st2, t1 ++ t2)
  end.

End Upload.

(* ===================================================================== *)
(** * The multi-file Upload view (unnamed/part_004): 10MB limit, type
      check *)
(* ===================================================================== *)

Module UploadMulti.

Definition allowedTypes : list (list N) :=
  [ JS.lit "application/pdf";
    JS.lit "text/plain";
    JS.lit "application/msword";
    JS.lit "application/vnd.openxmlformats-officedocument.wordprocessingml.document" ].

Definition MAX_SIZE : Z := 10 * 1024 * 1024.

Definition includes (l : list (list N)) (x : list N) : bool :=
  existsb (JS.str_eqb x) l.

(** The files [handleFileSelect] keeps as [selectedFiles]. *)
Definition validFiles (picked : list File) : list File :=
  List.filter
    (fun f => includes allowedTypes (type f) && negb (size f >? MAX_SIZE))
    picked.

(** The key [file_<index>] of the errors object. *)
Definition error_key (index : nat) : string := "file_" +:+ pretty index.

Definition unsupported (f : File) : list N :=
  name f ++ JS.lit ": Unsupported file type. Please upload PDF, TXT, DOC, or DOCX files.".

Definition too_large (f : File) : list N :=
  name f ++ JS.lit ": File too large. Maximum size is 10MB.".

(** The [forEach] of [handleFileSelect] from position [index] on: the
    files pushed to [validFiles] and the entries set in [newErrors]. *)
Fixpoint select (index : nat) (files : list File)
  : list File * gmap string (list N) :=
  match files with
  | [] => ([], ∅)
  | f :: rest =>
      let '(valid, newErrors) := select (S index) rest in
      if negb (includes allowedTypes (type f)) then
        (valid, <[error_key index := unsupported f]> newErrors)
      else if size f >? MAX_SIZE then
        (valid, <[error_key index := too_large f]> newErrors)
      else (f :: valid, newErrors)
  end.

Record State := mkState {
  selectedFiles : list File;
  isUploading : bool;
  uploadProgress : Z;
  uploadStatus : list N;
  errors : gmap string (list N)
}.

Definition initial : State :=
  {| selectedFiles := []; isUploading := false; uploadProgress := 0;
     uploadStatus := []; errors := ∅ |}.

(** [handleFileSelect]; [picked] is [Array.from(e.target.files)]. *)
Definition handleFileSelect (picked : list File) (st : State) : State :=
  let '(valid, newErrors) := select 0 picked in
  {| selectedFiles := valid; isUploading := isUploading st;
     uploadProgress := uploadProgress st; uploadStatus := [];
     errors := newErrors |}.

(** [files.filter((_, index) => index !== indexToRemove)], from position
    [index] on. *)
Fixpoint keep_others (indexToRemove index : nat) (files : list File)
  : list File :=
  match files with
  | [] => []
  | f :: rest =>
      if negb (Nat.eqb index indexToRemove)
      then f :: keep_others indexToRemove (S index) rest
      else keep_others indexToRemove (S index) rest
  end.

Definition removeFile (indexToRemove : nat) (st : State) : State :=
  {| selectedFiles := keep_others indexToRemove 0 (selectedFiles st);
     isUploading := isUploading st; uploadProgress := uploadProgress st;
     uploadStatus := uploadStatus st; errors := errors st |}.

(** One callback of the interval that simulates the progress. *)
Definition tick (prev : Z) : Z := if prev >=? 90 then prev else prev + 10.

(** The progress shown after [ticks] callbacks of the interval. *)
Fixpoint simulated (ticks : nat) : Z :=
  match ticks with
  | O => 0
  | S n => tick (simulated n)
  end.

(** [handleUpload], run until its timer has fired. The transfer is
    simulated by two timer promises; nothing is sent. *)
Definition handleUpload (st : State) (ls : gmap string (list N))
  : State * gmap string (list N) * list effect :=
  match selectedFiles st with
  | [] =>
      ({| selectedFiles := []; isUploading := isUploading st;
          uploadProgress := uploadProgress st;
          uploadStatus := uploadStatus st;
          errors := {[ "general" :=
                         JS.lit "Please select at least one file to upload." ]} |},
       ls, [])
  | _ :: _ =>
      ({| selectedFiles := selectedFiles st; isUploading := false;
          uploadProgress := 100;
          uploadStatus := JS.lit "Upload completed successfully!";
          errors := ∅ |},
       Storage.setItem "filesUploaded" (JS.lit "true") ls,
       [Sleep 2000; Sleep 1500; SetItem "filesUploaded" (JS.lit "true");
        SetTimeout 1500; Navigate "/chat"])
  end.

End UploadMulti.

(* ===================================================================== *)
(** * The ChatUpload view: file list and upload (chatUpload.jsx and, with
      retries, unnamed/part_005) *)
(* ===================================================================== *)

Module ChatUpload.

Definition MAX_SIZE : Z := 5 * 1024 * 1024.

(** [fetchFiles] of chatUpload.jsx: one attempt; a failure is logged and
    the list is left as it is. *)
Definition fetchFiles (result : outcome FilesResponse)
    (uploadedFiles : list DocumentRecord)
  : list DocumentRecord * list effect :=
  match result with
  | Resolved res =>
      match data res with
      | Some body =>
          (match files body with Some l => l | None => [] end,
           [HttpGet "/files"])
      | None => (uploadedFiles, [HttpGet "/files"; ConsoleError])
      end
  | Rejected _ => (uploadedFiles, [HttpGet "/files"; ConsoleError])
  end.

(** [fetchFiles(retryCount = 1)] of unnamed/part_005. [backend k] is
    what the [k]-th GET of the file list ends with; [k] is the number of
    the next GET. The result is the list once everything has settled,
    the effects up to the moment the returned promise resolves, and the
    effects of the retries the timers run afterwards. [retryCount] only
    takes the values 1 and 0 in the program. *)
Fixpoint fetchFiles_retry (retryCount : nat)
    (backend : nat -> outcome FilesResponse) (k : nat)
    (uploadedFiles : list DocumentRecord)
  : list DocumentRecord * list effect * list effect :=
  let failed :=
    match retryCount with
    | S n =>
        let '(l, now, later) :=
          fetchFiles_retry n backend (S k) uploadedFiles in
        (l, [HttpGet "/files"; ConsoleError; SetTimeout 500], now ++ later)
    | O => (uploadedFiles, [HttpGet "/files"; ConsoleError], [])
    end in
  match backend k with
  | Resolved res =>
      match data res with
      | Some body =>
          (match files body with Some l => l | None => [] end,
           [HttpGet "/files"], [])
      | None => failed
      end
  | Rejected _ => failed
  end.

Record State := mkState {
  uploadedFiles : list DocumentRecord;
  isUploading : bool
}.

Definition upload_alert (res : UploadBody) (fallback : string) : list N :=
  match upload_message res with
  | Some (c :: m) => c :: m
  | _ => JS.lit fallback
  end.

Definition failure_alert (err : AxiosError) : list N :=
  match payload_error err with
  | Some m => m
  | None => JS.lit "Upload failed"
  end.

(** [handleFileChange] of chatUpload.jsx, run to completion. *)
Definition handleFileChange (picked : option File)
    (result : outcome UploadBody) (listing : outcome FilesResponse)
    (st : State) : State * list effect :=
  match picked with
  | None => (st, [])
  | Some f =>
      if size f >? MAX_SIZE then
        (st, [Alert (JS.lit "File > 5MB. Choose a smaller file.")])
      else
        let sent := HttpPost "/upload" "file" (name f) (size f) in
        match result with
        | Resolved res =>
            let '(l, t) := fetchFiles listing (uploadedFiles st) in
            ({| uploadedFiles := l; isUploading := false |},
             sent :: t ++ [Alert (upload_alert res "Uploaded successfully")])
        | Rejected err =>
            ({| uploadedFiles := uploadedFiles st; isUploading := false |},
             [sent; ConsoleError; Alert (failure_alert err)])
        end
  end.

(** [handleFileChange] of unnamed/part_005, run until its timers have
    fired. *)
Definition handleFileChange_retry (picked : option File)
    (result : outcome UploadBody) (backend : nat -> outcome FilesResponse)
    (st : State) : State * list effect :=
  match picked with
  | None => (st, [])
  | Some f =>
      if size f >? MAX_SIZE then
        (st, [Alert (JS.lit
                "File size exceeds 5MB. Please choose a smaller file.")])
      else
        let sent := HttpPost "/upload" "document" (name f) (size f) in
        match result with
        | Resolved res =>
            let '(l, now, later) :=
              fetchFiles_retry 1 backend 0 (uploadedFiles st) in
            ({| uploadedFiles := l; isUploading := false |},
             sent :: Sleep 1000 :: now
               ++ Alert (upload_alert res "File uploaded successfully")
               :: later)
        | Rejected err =>
            ({| uploadedFiles := uploadedFiles st; isUploading := false |},
             [sent; ConsoleError; Alert (failure_alert err)])
        end
  end.

End ChatUpload.

(* ===================================================================== *)
(** * JSON.stringify and JSON.parse *)
(* ===================================================================== *)

(** The two platform functions the persisted conversation goes through,
    after ECMA-262 (QuoteJSONString, SerializeJSONArray/Object without
    indentation) and the JSON grammar of ECMA-404. A number is kept as its
    lexeme. An object is the list of its properties in creation order;
    array-index keys, which JavaScript would move to the front, do not
    occur in the values of this program. *)
Module JSON.

Local Open Scope N_scope.

Inductive value :=
| Null
| Bool (b : bool)
| Num (lexeme : list N)
| Str (s : list N)
| Arr (items : list value)
| Obj (fields : list (list N * value)).

(** ** Serialisation *)

Definition hex_digit (d : N) : N := if d <? 10 then 48 + d else 87 + d.

Definition unicode_escape (c : N) : list N :=
  [92; 117; hex_digit (c / 4096 mod 16); hex_digit (c / 256 mod 16);
   hex_digit (c / 16 mod 16); hex_digit (c mod 16)].

Definition is_high_surrogate (c : N) : bool := (55296 <=? c) && (c <=? 56319).
Definition is_low_surrogate (c : N) : bool := (56320 <=? c) && (c <=? 57343).

(** One code unit that is not half of a surrogate pair. *)
Definition quote_unit (c : N) : list N :=
  if c =? 8 then [92; 98]
  else if c =? 9 then [92; 116]
  else if c =? 10 then [92; 110]
  else if c =? 12 then [92; 102]
  else if c =? 13 then [92; 114]
  else if c =? 34 then [92; 34]
  else if c =? 92 then [92; 92]
  else if (c <? 32) || is_high_surrogate c || is_low_surrogate c
       then unicode_escape c
  else [c].

Fixpoint quote_units (s : list N) : list N :=
  match s with
  | [] => []
  | h :: r =>
      match r with
      | l :: r' =>
          if is_high_surrogate h && is_low_surrogate l
          then h :: l :: quote_units r'
          else quote_unit h ++ quote_units r
      | [] => quote_unit h
      end
  end.

Definition quote (s : list N) : list N := 34 :: quote_units s ++ [34].

Fixpoint join (sep : N) (parts : list (list N)) : list N :=
  match parts with
  | [] => []
  | p :: rest =>
      match rest with
      | [] => p
      | _ :: _ => p ++ sep :: join sep rest
      end
  end.

Fixpoint stringify (v : value) : list N :=
  match v with
  | Null => JS.lit "null"
  | Bool true => JS.lit "true"
  | Bool false => JS.lit "false"
  | Num lexeme => lexeme
  | Str s => quote s
  | Arr items => 91 :: join 44 (map stringify items) ++ [93]
  | Obj fields =>
      123 :: join 44 (map (fun kv => quote (fst kv) ++ 58 :: stringify (snd kv))
                        fields) ++ [125]
  end.

(** ** Parsing *)

Notation "'let*' p ':=' c 'in' k" :=
  (match c with Some p => k | None => None end)
  (at level 10, p pattern, c at level 100, k at level 200, only parsing).

Definition is_ws (c : N) : bool :=
  (c =? 32) || (c =? 9) || (c =? 10) || (c =? 13).

Fixpoint skip_ws (s : list N) : list N :=
  match s with
  | c :: r => if is_ws c then skip_ws r else s
  | [] => []
  end.

Definition unhex (c : N) : option N :=
  if (48 <=? c) && (c <=? 57) then Some (c - 48)
  else if (97 <=? c) && (c <=? 102) then Some (c - 87)
  else if (65 <=? c) && (c <=? 70) then Some (c - 55)
  else None.

Definition unescape (e : N) : option N :=
  if e =? 34 then Some 34
  else if e =? 92 then Some 92
  else if e =? 47 then Some 47
  else if e =? 98 then Some 8
  else if e =? 102 then Some 12
  else if e =? 110 then Some 10
  else if e =? 114 then Some 13
  else if e =? 116 then Some 9
  else None.

(** The characters of a string literal after its opening quote, and what
    follows the closing quote. *)
Fixpoint parse_chars (s : list N) : option (list N * list N) :=
  match s with
  | [] => None
  | c :: r =>
      if c =? 34 then Some ([], r)
      else if c =? 92 then
        match r with
        | [] => None
        | e :: r1 =>
            if e =? 117 then
              match r1 with
              | h1 :: h2 :: h3 :: h4 :: r2 =>
                  let* d1 := unhex h1 in
                  let* d2 := unhex h2 in
                  let* d3 := unhex h3 in
                  let* d4 := unhex h4 in
                  let* (t, rest) := parse_chars r2 in
                  Some (((d1 * 16 + d2) * 16 + d3) * 16 + d4 :: t, rest)
              | _ => None
              end
            else
              let* u := unescape e in
              let* (t, rest) := parse_chars r1 in
              Some (u :: t, rest)
        end
      else if c <? 32 then None
      else
        let* (t, rest) := parse_chars r in
        Some (c :: t, rest)
  end.

Definition is_digit (c : N) : bool := (48 <=? c) && (c <=? 57).

Fixpoint take_digits (s : list N) : list N * list N :=
  match s with
  | c :: r =>
      if is_digit c then let '(ds, rest) := take_digits r in (c :: ds, rest)
      else ([], s)
  | [] => ([], [])
  end.

Definition digits1 (s : list N) : option (list N * list N) :=
  match take_digits s with
  | ([], _) => None
  | (ds, rest) => Some (ds, rest)
  end.

(** A number: - ? int frac ? exp ?, returned as its lexeme. *)
Definition parse_number (s : list N) : option (list N * list N) :=
  let '(sign, s1) :=
    match s with
    | c :: r => if c =? 45 then ([45], r) else ([], s)
    | [] => ([], [])
    end in
  let* (int, s2) :=
    match s1 with
    | c :: r => if c =? 48 then Some ([48], r) else digits1 s1
    | [] => None
    end in
  let* (frac, s3) :=
    match s2 with
    | c :: r =>
        if c =? 46 then let* (ds, rest) := digits1 r in Some (46 :: ds, rest)
        else Some ([], s2)
    | [] => Some ([], [])
    end in
  let* (exp, s4) :=
    match s3 with
    | c :: r =>
        if (c =? 101) || (c =? 69) then
          let '(sg, r1) :=
            match r with
            | d :: r' =>
                if (d =? 43) || (d =? 45) then ([d], r') else ([], r)
            | [] => ([], [])
            end in
          let* (ds, rest) := digits1 r1 in
          Some (c :: sg ++ ds, rest)
        else Some ([], s3)
    | [] => Some ([], [])
    end in
  Some (sign ++ int ++ frac ++ exp, s4).

Fixpoint strip_prefix (p s : list N) : option (list N) :=
  match p, s with
  | [], _ => Some s
  | a :: p', b :: s' => if a =? b then strip_prefix p' s' else None
  | _ :: _, [] => None
  end.

(** Setting a property: an existing key keeps its place. *)
Fixpoint set_property (k : list N) (v : value)
    (fields : list (list N * value)) : list (list N * value) :=
  match fields with
  | [] => [(k, v)]
  | (k', v') :: rest =>
      if JS.str_eqb k' k then (k, v) :: rest
      else (k', v') :: set_property k v rest
  end.

Definition object_of (members : list (list N * value)) : value :=
  Obj (fold_left (fun acc kv => set_property (fst kv) (snd kv) acc)
         members []).

Fixpoint parse_value (fuel : nat) (s : list N) : option (value * list N) :=
  match fuel with
  | O => None
  | S f =>
      match skip_ws s with
      | [] => None
      | c :: r =>
          if c =? 34 then
            let* (t, rest) := parse_chars r in Some (Str t, rest)
          else if c =? 91 then
            match skip_ws r with
            | c' :: r' =>
                if c' =? 93 then Some (Arr [], r')
                else
                  let* (items, rest) := parse_elements f r in
                  Some (Arr items, rest)
            | [] => None
            end
          else if c =? 123 then
            match skip_ws r with
            | c' :: r' =>
                if c' =? 125 then Some (Obj [], r')
                else
                  let* (members, rest) := parse_members f r in
                  Some (object_of members, rest)
            | [] => None
            end
          else if c =? 116 then
            let* rest := strip_prefix (JS.lit "rue") r in
            Some (Bool true, rest)
          else if c =? 102 then
            let* rest := strip_prefix (JS.lit "alse") r in
            Some (Bool false, rest)
          else if c =? 110 then
            let* rest := strip_prefix (JS.lit "ull") r in
            Some (Null, rest)
          else
            let* (lexeme, rest) := parse_number (c :: r) in
            Some (Num lexeme, rest)
      end
  end
with parse_elements (fuel : nat) (s : list N)
  : option (list value * list N) :=
  match fuel with
  | O => None
  | S f =>
      let* (v, r) := parse_value f s in
      match skip_ws r with
      | c :: r' =>
          if c =? 44 then
            let* (vs, rest) := parse_elements f r' in Some (v :: vs, rest)
          else if c =? 93 then Some ([v], r')
          else None
      | [] => None
      end
  end
with parse_members (fuel : nat) (s : list N)
  : option (list (list N * value) * list N) :=
  match fuel with
  | O => None
  | S f =>
      match skip_ws s with
      | c :: r =>
          if c =? 34 then
            let* (k, r1) := parse_chars r in
            match skip_ws r1 with
            | c1 :: r2 =>
                if c1 =? 58 then
                  let* (v, r3) := parse_value f r2 in
                  match skip_ws r3 with
                  | c3 :: r4 =>
                      if c3 =? 44 then
                        let* (ms, rest) := parse_members f r4 in
                        Some ((k, v) :: ms, rest)
                      else if c3 =? 125 then Some ([(k, v)], r4)
                      else None
                  | [] => None
                  end
                else None
            | [] => None
            end
          else None
      | [] => None
      end
  end.

(** [JSON.parse]: [None] is the SyntaxError it throws. The fuel only
    bounds the recursion: a nested call costs at most two units and is
    made after at least one more character was passed, hence twice the
    length of the text. *)
Definition parse (s : list N) : option value :=
  let* (v, rest) := parse_value (2 * length s + 2) s in
  match skip_ws rest with
  | [] => Some v
  | _ :: _ => None
  end.

End JSON.

(** The body of a chat response: [response.data.reply]. *)
Record ChatBody := mkChatBody {
  reply : option (list N)
}.

(* ===================================================================== *)
(** * The Chatbot view that talks to axios directly (components/Chatbot.js,
      unnamed/part_003) *)
(* ===================================================================== *)

Module Chatbot.

Inductive Sender := user | bot.

(** A message; [isError] is [None] for the objects built without it. *)
Record Message := mkMessage {
  id : Z;
  text : list N;
  sender : Sender;
  timestamp : Z;
  isError : option bool
}.

Record State := mkState {
  messages : list Message;
  inputMessage : list N;
  isLoading : bool;
  error : list N
}.

(** The view together with the [axios.post] calls that have not settled:
    for each, the text it carries, oldest first. *)
Record World := mkWorld {
  view : State;
  outstanding : list (list N)
}.

Definition greeting (now : Z) : Message :=
  {| id := 1;
     text := JS.lit "Hello! I'm your AI assistant. I've processed your uploaded documents and I'm ready to help you find information, answer questions, or discuss the content. What would you like to know?";
     sender := bot; timestamp := now; isError := None |}.

Definition initial (now : Z) : World :=
  {| view := {| messages := [greeting now]; inputMessage := [];
                isLoading := false; error := [] |};
     outstanding := [] |}.

(** [handleSendMessage] up to its [await]. *)
Definition handleSendMessage (now : Z) (w : World) : World * list effect :=
  let st := view w in
  if negb (JS.truthy (Some (JS.trim (inputMessage st)))) || isLoading st
  then (w, [])
  else
    let userMessage :=
      {| id := now; text := JS.trim (inputMessage st); sender := user;
         timestamp := now; isError := None |} in
    ({| view := {| messages := messages st ++ [userMessage];
                   inputMessage := []; isLoading := true; error := [] |};
        outstanding := outstanding w ++ [text userMessage] |},
     [HttpPostJson "/chat" "message" (text userMessage)]).

(** The text the [catch] block chooses. *)
Definition errorMessage (err : AxiosError) : list N :=
  if timed_out err then JS.lit "Request timed out. Please try again."
  else
    match response err with
    | Some r =>
        JS.lit "Server error: " ++ JS.of_Z (status r)
          ++ JS.lit ". Please try again."
    | None =>
        if request err then
          JS.lit "Unable to connect to the server. Please check your connection."
        else
          JS.lit "Sorry, I encountered an error while processing your message."
    end.

(** [handleSendMessage] from its [await] on, when the oldest outstanding
    call settles with [result]. *)
Definition settle (result : outcome ChatBody) (now : Z) (w : World)
  : World * list effect :=
  let st := view w in
  match outstanding w with
  | [] => (w, [])
  | _ :: others =>
      match result with
      | Resolved res =>
          let botMessage :=
            {| id := now + 1;
               text := match reply res with
                       | Some (c :: r) => c :: r
                       | _ => JS.lit "Sorry, I couldn't generate a response."
                       end;
               sender := bot; timestamp := now; isError := None |} in
          ({| view := {| messages := messages st ++ [botMessage];
                         inputMessage := inputMessage st;
                         isLoading := false; error := error st |};
              outstanding := others |}, [])
      | Rejected err =>
          let errorBotMessage :=
            {| id := now + 1; text := errorMessage err; sender := bot;
               timestamp := now; isError := Some true |} in
          ({| view := {| messages := messages st ++ [errorBotMessage];
                         inputMessage := inputMessage st;
                         isLoading := false; error := errorMessage err |};
              outstanding := others |}, [ConsoleError])
      end
  end.

Definition clearChat (now : Z) (w : World) : World :=
  let st := view w in
  {| view := {| messages :=
                  [ {| id := 1;
                       text := JS.lit "Chat cleared! I'm ready to help you with your documents. What would you like to know?";
                       sender := bot; timestamp := now; isError := None |} ];
                inputMessage := inputMessage st;
                isLoading := isLoading st; error := error st |};
     outstanding := outstanding w |}.

Definition setInputMessage (s : list N) (w : World) : World :=
  let st := view w in
  {| view := {| messages := messages st; inputMessage := s;
                isLoading := isLoading st; error := error st |};
     outstanding := outstanding w |}.

Inductive event :=
| Type_ (s : list N)
| Send (now : Z)
| Settle (result : outcome ChatBody) (now : Z)
| Clear (now : Z).

Definition step (ev : event) (w : World) : World * list effect :=
  match ev with
  | Type_ s => (setInputMessage s w, [])
  | Send now => handleSendMessage now w
  | Settle result now => settle result now w
  | Clear now => (clearChat now w, [])
  end.

Fixpoint run (evs : list event) (w : World) : World * list effect :=
  match evs with
  | [] => (w, [])
  | ev :: rest =>
      let '(w1, t1) := step ev w in
      let '(w2, t2) := run rest w1 in
      (w2, t1 ++ t2)
  end.

End Chatbot.

(* ===================================================================== *)
(** * The Chatbot view with a persisted conversation
      (components/chat/Chatbot.jsx, unnamed/part_001) *)
(* ===================================================================== *)

Module ChatbotStored.

Inductive Sender := user | bot.

Definition sender_name (s : Sender) : list N :=
  match s with
  | user => JS.lit "user"
  | bot => JS.lit "bot"
  end.

(** A message of the conversation: the object [{ text, sender }]. A
    [text] that is [undefined] (a reply without the field) is a property
    no read and no serialisation can tell from an absent one, and is
    represented as absent. *)
Record Message := mkMessage {
  text : option (list N);
  sender : Sender
}.

Definition object (m : Message) : JSON.value :=
  JSON.Obj
    (match text m with
     | Some t => [(JS.lit "text", JSON.Str t)]
     | None => []
     end ++ [(JS.lit "sender", JSON.Str (sender_name (sender m)))]).

Definition array (conversation : list Message) : JSON.value :=
  JSON.Arr (map object conversation).



(** ** Persistence: the two effects of the component *)

(** The effect that saves the conversation. *)
Definition save (conversation : list Message) (ls : gmap string (list N))
  : gmap string (list N) :=
  Storage.setItem "chatConversation" (JSON.stringify (array conversation)) ls.

(** What the effect that loads the conversation ends with. *)
Inductive loaded :=
| Nothing                             (* no snapshot: state untouched *)
| Restored (parsed : JSON.value)      (* setConversation(parsed) *)
| Thrown.                             (* JSON.parse threw a SyntaxError *)

Definition load (ls : gmap string (list N)) : loaded :=
  match Storage.getItem "chatConversation" ls with
  | Some (c :: s) =>
      match JSON.parse (c :: s) with
      | Some v => Restored v
      | None => Thrown
      end
  | Some [] | None => Nothing
  end.

(** ** The view *)

Record State := mkState {
  message : list N;
  conversation : list Message;
  isLoading : bool
}.

(** The view, the storage, and for each [api.post] that has not settled
    the [updatedConversation] its handler holds, oldest first. *)
Record World := mkWorld {
  view : State;
  storage : gmap string (list N);
  outstanding : list (list Message)
}.

Definition initial (ls : gmap string (list N)) : World :=
  {| view := {| message := []; conversation := []; isLoading := false |};
     storage := ls; outstanding := [] |}.

(** [setConversation c] followed by the save effect of the next render. *)
Definition setConversation (c : list Message) (loading : bool)
    (input : list N) (w : World) (calls : list (list Message))
  : World * list effect :=
  ({| view := {| message := input; conversation := c;
                 isLoading := loading |};
      storage := save c (storage w);
      outstanding := calls |},
   [SetItem "chatConversation" (JSON.stringify (array c))]).

(** [handleSubmit] up to its [await]. *)
Definition handleSubmit (w : World) : World * list effect :=
  let st := view w in
  if negb (JS.truthy (Some (JS.trim (message st)))) || isLoading st
  then (w, [])
  else
    let userMessage := {| text := Some (message st); sender := user |} in
    let updatedConversation := conversation st ++ [userMessage] in
    let '(w', saved) :=
      setConversation updatedConversation true [] w
        (outstanding w ++ [updatedConversation]) in
    (w', HttpPostJson "/chat" "message" (message st) :: saved).

Definition errorMessage : Message :=
  {| text := Some (JS.lit "Error: Could not get response from the server");
     sender := bot |}.

(** [handleSubmit] from its [await] on. *)
Definition settle (result : outcome ChatBody) (w : World)
  : World * list effect :=
  match outstanding w with
  | [] => (w, [])
  | updatedConversation :: others =>
      let answer :=
        match result with
        | Resolved res => {| text := reply res; sender := bot |}
        | Rejected _ => errorMessage
        end in
      setConversation (updatedConversation ++ [answer]) false
        (message (view w)) w others
  end.

(** [clearChat]; [confirmed] is the answer to [window.confirm]. *)
Definition clearChat (confirmed : bool) (w : World) : World * list effect :=
  if confirmed then
    let w1 :=
      {| view := view w;
         storage := Storage.removeItem "chatConversation" (storage w);
         outstanding := outstanding w |} in
    let '(w2, saved) :=
      setConversation [] (isLoading (view w)) (message (view w)) w1
        (outstanding w) in
    (w2, RemoveItem "chatConversation" :: saved)
  else (w, []).

Definition setMessage (s : list N) (w : World) : World :=
  {| view := {| message := s; conversation := conversation (view w);
                isLoading := isLoading (view w) |};
     storage := storage w; outstanding := outstanding w |}.

Inductive event :=
| Type_ (s : list N)
| Submit
| Settle (result : outcome ChatBody)
| Clear (confirmed : bool).

Definition step (ev : event) (w : World) : World * list effect :=
  match ev with
  | Type_ s => (setMessage s w, [])
  | Submit => handleSubmit w
  | Settle result => settle result w
  | Clear confirmed => clearChat confirmed w
  end.

Fixpoint run (evs : list event) (w : World) : World * list effect :=
  match evs with
  | [] => (w, [])
  | ev :: rest =>
      let '(w1, t1) := step ev w in
      let '(w2, t2) := run rest w1 in
      (w2, t1 ++ t2)
  end.

End ChatbotStored.

(* ===================================================================== *)
(** * The chat of the ChatUpload view (unnamed/part_005) *)
(* ===================================================================== *)

Module ChatUploadChat.

Inductive Sender := user | bot.

Record Message := mkMessage {
  sender : Sender;
  text : list N
}.

Record World := mkWorld {
  messages : list Message;
  input : list N;
  outstanding : list (list N)
}.

(** [sendMessage] up to its [await]: there is no pending flag. *)
Definition sendMessage (w : World) : World * list effect :=
  let trimmed := JS.trim (input w) in
  if negb (JS.truthy (Some trimmed)) then (w, [])
  else
    ({| messages := messages w ++ [ {| sender := user; text := trimmed |} ];
        input := [];
        outstanding := outstanding w ++ [trimmed] |},
     [HttpPostJson "/chat" "query" trimmed]).

(** The text of the reply: [res.data?.reply || "No response available."]. *)
Definition botReply (res : ChatBody) : list N :=
  match reply res with
  | Some (c :: r) => c :: r
  | _ => JS.lit "No response available."
  end.

(** The text shown for a failure. *)
Definition errorReply (err : AxiosError) : list N :=
  JS.lit "Error: "
    ++ match payload_error err with
       | Some m => m
       | None => JS.lit "Chat failed"
       end.

(** [sendMessage] from its [await] on, when one of the calls that are out
    settles with [result]. *)
Definition settle (result : outcome ChatBody) (w : World)
  : World * list effect :=
  match outstanding w with
  | [] => (w, [])
  | _ :: others =>
      match result with
      | Resolved res =>
          ({| messages := messages w
                            ++ [ {| sender := bot; text := botReply res |} ];
              input := input w; outstanding := others |}, [])
      | Rejected err =>
          ({| messages := messages w
                            ++ [ {| sender := bot; text := errorReply err |} ];
              input := input w; outstanding := others |}, [ConsoleError])
      end
  end.

Definition setInput (s : list N) (w : World) : World :=
  {| messages := messages w; input := s; outstanding := outstanding w |}.

Inductive event :=
| Type_ (s : list N)
| Send
| Settle (result : outcome ChatBody).

Definition step (ev : event) (w : World) : World * list effect :=
  match ev with
  | Type_ s => (setInput s w, [])
  | Send => sendMessage w
  | Settle result => settle result w
  end.

Fixpoint run (evs : list event) (w : World) : World * list effect :=
  match evs with
  | [] => (w, [])
  | ev :: rest =>
      let '(w1, t1) := step ev w in
      let '(w2, t2) := run rest w1 in
      (w2, t1 ++ t2)
  end.

(** The reply of the variant in chatUpload.jsx, which queries [/query]:
    the texts of the matches joined by line feeds ([None] is a match
    without a text). *)
Fixpoint join_lines (texts : list (list N)) : list N :=
  match texts with
  | [] => []
  | t :: rest =>
      match rest with
      | [] => t
      | _ :: _ => t ++ 10%N :: join_lines rest
      end
  end.

Definition matchesReply (matches : option (list (option (list N))))
  : list N :=
  match matches with
  | Some (m :: ms) =>
      join_lines (map (fun t => match t with Some x => x | None => [] end)
                    (m :: ms))
  | _ => JS.lit "No relevant results found."
  end.

End ChatUploadChat.

(* ===================================================================== *)
(** * The Upload view without validation
      (frontend/src/components/document/Upload.jsx) *)
(* ===================================================================== *)

Module UploadPlain.

Record State := mkState {
  file : option File;
  isLoading : bool;
  error : list N;
  success : bool
}.

Definition initial : State :=
  {| file := None; isLoading := false; error := []; success := false |}.

(** [handleFileChange]: whatever was picked is held. *)
Definition handleFileChange (selectedFile : option File) (st : State)
  : State * list effect :=
  ({| file := selectedFile; isLoading := isLoading st; error := [];
      success := false |}, []).

Definition failure_text (err : AxiosError) : list N :=
  match payload_error err with
  | Some m => m
  | None => JS.lit "Upload failed. Please try again."
  end.

(** [handleSubmit], run to completion. *)
Definition handleSubmit (result : outcome UploadBody) (st : State)
  : State * list effect :=
  match file st with
  | None =>
      ({| file := None; isLoading := isLoading st;
          error := JS.lit "Please select a file"; success := success st |},
       [])
  | Some f =>
      let sent := HttpPost "/upload" "document" (name f) (size f) in
      match result with
      | Resolved _ =>
          ({| file := Some f; isLoading := false; error := [];
              success := true |},
           [sent; SetTimeout 1500; Navigate "/chatbot"])
      | Rejected err =>
          ({| file := Some f; isLoading := false; error := failure_text err;
              success := success st |}, [sent])
      end
  end.

End UploadPlain.

(* ===================================================================== *)
(** * The login form that sets the flag (src/components/Login.js) *)
(* ===================================================================== *)

Module LoginForm.

Record FormData := mkFormData {
  username : list N;
  password : list N
}.

Record State := mkState {
  formData : FormData;
  errors : gmap string (list N);
  isLoading : bool
}.

(** The object [validateForm] builds. *)
Definition newErrors (d : FormData) : gmap string (list N) :=
  let e1 : gmap string (list N) :=
    if negb (JS.truthy (Some (JS.trim (username d))))
    then {[ "username" := JS.lit "Username is required" ]}
    else ∅ in
  match password d with
  | [] => <["password" := JS.lit "Password is required"]> e1
  | _ :: _ =>
      if (Z.of_nat (length (password d)) <? 6)
      then <["password" := JS.lit "Password must be at least 6 characters"]> e1
      else e1
  end.

(** [validateForm]: the errors it sets and whether there are none. *)
Definition validateForm (d : FormData) : gmap string (list N) * bool :=
  (newErrors d, bool_decide (base.size (newErrors d) = 0%nat)).

(** [handleSubmit], run to completion. *)
Definition handleSubmit (st : State) (ls : gmap string (list N))
  : State * gmap string (list N) * list effect :=
  let '(errs, ok) := validateForm (formData st) in
  if negb ok then
    ({| formData := formData st; errors := errs; isLoading := isLoading st |},
     ls, [])
  else
    ({| formData := formData st; errors := errs; isLoading := false |},
     Storage.setItem "username" (username (formData st))
       (Storage.setItem "isAuthenticated" (JS.lit "true") ls),
     [Sleep 1500; SetItem "isAuthenticated" (JS.lit "true");
      SetItem "username" (username (formData st)); Navigate "/upload"]).

End LoginForm.

(* ===================================================================== *)
(** * The login and registration forms that store the token
      (frontend/src/components/auth/Login.jsx, Register in
      unnamed/part_006) *)
(* ===================================================================== *)

(** The body of a login or registration response: [data.token] and
    [data.username], [None] when absent. *)
Record SessionBody := mkSessionBody {
  session_token : option (list N);
  session_username : option (list N)
}.

(** What a form does: an effect of the browser, or the post of its
    fields. *)
Inductive form_effect :=
| Did (e : effect)
| PostFields (path : string) (fields : list (string * list N)).

Module LoginToken.

Record State := mkState {
  username : list N;
  password : list N;
  error : list N;
  isLoading : bool
}.

(** The message the [catch] block shows. *)
Definition failure_text (err : AxiosError) : list N :=
  match response err with
  | Some r =>
      match data_error r with
      | Some (c :: m) => c :: m
      | _ => JS.lit "Server error: " ++ JS.of_Z (status r)
      end
  | None =>
      if request err then JS.lit "Network error: Server did not respond"
      else
        match message err with
        | c :: m => c :: m
        | [] => JS.lit "Login failed. Please try again."
        end
  end.

(** [handleSubmit], run to completion. *)
Definition handleSubmit (result : outcome SessionBody) (st : State)
    (ls : gmap string (list N))
  : State * gmap string (list N) * list form_effect :=
  let sent :=
    PostFields "/login"
      [("username", username st); ("password", password st)] in
  match result with
  | Resolved res =>
      match session_token res with
      | Some (c :: t) =>
          ({| username := username st; password := password st;
              error := []; isLoading := false |},
           Storage.setItem "token" (c :: t) ls,
           [sent; Did (SetItem "token" (c :: t)); Did (Navigate "/upload")])
      | _ =>
          ({| username := username st; password := password st;
              error := JS.lit "No token received in response";
              isLoading := false |},
           ls, [sent; Did ConsoleError])
      end
  | Rejected err =>
      ({| username := username st; password := password st;
          error := failure_text err; isLoading := false |},
       ls, [sent; Did ConsoleError])
  end.

End LoginToken.

Module Register.

Record State := mkState {
  username : list N;
  password : list N;
  confirmPassword : list N;
  error : list N;
  isLoading : bool
}.

Definition failure_text (err : AxiosError) : list N :=
  match payload_error err with
  | Some m => m
  | None =>
      match message err with
      | c :: m => c :: m
      | [] => JS.lit "Register failed"
      end
  end.

(** [handleSubmit], run to completion. *)
Definition handleSubmit (result : outcome SessionBody) (st : State)
    (ls : gmap string (list N))
  : State * gmap string (list N) * list form_effect :=
  if negb (JS.str_eqb (password st) (confirmPassword st)) then
    ({| username := username st; password := password st;
        confirmPassword := confirmPassword st;
        error := JS.lit "Passwords do not match";
        isLoading := isLoading st |}, ls, [])
  else
    let sent :=
      PostFields "/register"
        [("username", username st); ("password", password st)] in
    match result with
    | Resolved res =>
        match session_token res with
        | Some (c :: t) =>
            let stored :=
              match session_username res with
              | Some (u :: us) => u :: us
              | _ => username st
              end in
            ({| username := username st; password := password st;
                confirmPassword := confirmPassword st;
                error := []; isLoading := false |},
             Storage.setItem "username" stored
               (Storage.setItem "token" (c :: t) ls),
             [sent; Did (SetItem "token" (c :: t));
              Did (SetItem "username" stored); Did (Navigate "/chatUpload")])
        | _ =>
            ({| username := username st; password := password st;
                confirmPassword := confirmPassword st;
                error := []; isLoading := false |},
             ls, [sent; Did (Navigate "/login")])
        end
    | Rejected err =>
        ({| username := username st; password := password st;
            confirmPassword := confirmPassword st;
            error := failure_text err; isLoading := false |},
         ls, [sent])
    end.

End Register.

(* ===================================================================== *)
(** * Observations on traces and states *)
(* ===================================================================== *)

(** Whether a GET of the file list counts as failed for [fetchFiles]. *)
Definition failed (o : outcome FilesResponse) : bool :=
  match o with
  | Rejected _ => true
  | Resolved res => match data res with Some _ => false | None => true end
  end.

Definition is_refresh (e : effect) : bool :=
  match e with
  | HttpGet p => String.eqb p "/files"
  | _ => false
  end.

Definition is_navigate (e : effect) : bool :=
  match e with
  | Navigate _ => true
  | _ => false
  end.

Definition is_retry_timer (e : effect) : bool :=
  match e with
  | SetTimeout ms => ms =? 500
  | _ => false
  end.

(** The GETs of the file list that a call of [fetchFiles] and the retries
    it schedules make. *)
Definition attempts (r : list DocumentRecord * list effect * list effect)
  : nat :=
  count is_refresh (r.1.2 ++ r.2).

Definition retry_timers (r : list DocumentRecord * list effect * list effect)
  : nat :=
  count is_retry_timer (r.1.2 ++ r.2).

(** Every file the Upload view holds passed the size check. *)
Definition accepted (st : Upload.State) : Prop :=
  match Upload.file st with
  | Some f => size f <= Upload.MAX_SIZE
  | None => True
  end.

Definition within_limit (e : effect) : Prop :=
  match e with
  | HttpPost _ _ _ sz => sz <= Upload.MAX_SIZE
  | _ => True
  end.



(** What the chat views keep true of the calls that have not settled:
    there is at most one, and while there is one the view is loading. *)
Definition serialized (loading : bool) (calls : nat) : Prop :=
  (calls ≤ 1)%nat ∧ (calls ≠ 0%nat → loading = true).


(* ===================================================================== *)
(** * Sample inputs *)
(* ===================================================================== *)

(** A browser of a user who logged in through the form that sets the
    [isAuthenticated] flag and who also holds a token. *)
Definition signed_in : Browser :=
  {| localStorage :=
       <["isAuthenticated" := JS.lit "true"]>
         (<["token" := JS.lit "abc"]> ∅);
     location_href := "/chat" |}.

Definition unauthorized : AxiosError :=
  {| code := None;
     response := Some {| status := 401; data_error := None |};
     request := true;
     message := JS.lit "Request failed with status code 401" |}.

(** A PDF of 3MB, one of 6MB, and the acknowledgement of an upload. *)
Definition pdf_3MB : File :=
  {| name := JS.lit "report.pdf"; size := 3 * 1024 * 1024;
     type := JS.lit "application/pdf" |}.

Definition pdf_6MB : File :=
  {| name := JS.lit "scan.pdf"; size := 6 * 1024 * 1024;
     type := JS.lit "application/pdf" |}.

Definition acknowledged : outcome UploadBody :=
  Resolved {| upload_message := Some (JS.lit "ok") |}.

Definition network_down : AxiosError :=
  {| code := Some (JS.lit "ERR_NETWORK"); response := None; request := true;
     message := JS.lit "Network Error" |}.

Definition two_documents : list DocumentRecord :=
  [ {| doc_id := 1; filename := JS.lit "a.txt" |};
    {| doc_id := 2; filename := JS.lit "b.pdf" |} ].

Definition one_document : list DocumentRecord :=
  [ {| doc_id := 1; filename := JS.lit "a.txt" |} ].

Definition listing (l : option (list DocumentRecord))
  : outcome FilesResponse :=
  Resolved {| data := Some {| files := l |} |}.

(** A backend whose file list fails twice and then answers. *)
Definition fails_twice (k : nat) : outcome FilesResponse :=
  match k with
  | O | S O => Rejected network_down
  | _ => listing (Some two_documents)
  end.

Definition always_fails (k : nat) : outcome FilesResponse :=
  Rejected network_down.

(** A user who typed a question and pressed send, in either view. *)
Definition asked : list Chatbot.event :=
  [Chatbot.Type_ (JS.lit "Summarize the document"); Chatbot.Send 1000].


(** A storage whose snapshot of the conversation was cut short, and one
    that holds no snapshot. *)
Definition truncated_snapshot : gmap string (list N) :=
  <["chatConversation" := JS.lit "[{"]> (<["token" := JS.lit "abc"]> ∅).

Definition no_snapshot : gmap string (list N) :=
  <["token" := JS.lit "abc"]> ∅.


(** A form whose user name is not blank and whose password has six
    characters or more. *)
Definition well_formed (d : LoginForm.FormData) : bool :=
  JS.truthy (Some (JS.trim (LoginForm.username d)))
  && (6 <=? Z.of_nat (length (LoginForm.password d))).




(** An effect that reaches the network. *)
Definition is_request (e : effect) : bool :=
  match e with
  | HttpGet _ | HttpPost _ _ _ _ | HttpPostJson _ _ _ => true
  | _ => false
  end.

Definition is_upload (e : effect) : bool :=
  match e with
  | HttpPost _ _ _ _ => true
  | _ => false
  end.

(** What [handleFileSelect] decides for one file: the error it records,
    if any. *)
Definition verdict (f : File) : option (list N) :=
  if negb (UploadMulti.includes UploadMulti.allowedTypes (type f))
  then Some (UploadMulti.unsupported f)
  else if size f >? UploadMulti.MAX_SIZE
       then Some (UploadMulti.too_large f)
       else None.

(** A text of white space only. *)
Definition blank (s : list N) : bool := forallb JS.is_space s.

(** The senders of a log of complete turns, and of one whose last turn
    still waits for its answer. *)
Fixpoint turns (n : nat) (waiting : bool) : list Chatbot.Sender :=
  match n with
  | O => if waiting then [Chatbot.user] else []
  | S m => Chatbot.user :: Chatbot.bot :: turns m waiting
  end.

Definition unclearing (ev : Chatbot.event) : bool :=
  match ev with
  | Chatbot.Clear _ => false
  | _ => true
  end.

(** The snapshot in the storage is the one of the conversation shown. *)
Definition snapshot_current (w : ChatbotStored.World) : Prop :=
  Storage.getItem "chatConversation" (ChatbotStored.storage w)
  = Some (JSON.stringify
            (ChatbotStored.array
               (ChatbotStored.conversation (ChatbotStored.view w)))).

Definition chat_posts (t : list effect) : nat :=
  count (fun e => match e with HttpPostJson _ _ _ => true | _ => false end) t.

(** A form that passes validation, one that does not, and a registration
    with the answer of the backend. *)
Definition ann : LoginForm.State :=
  {| LoginForm.formData :=
       {| LoginForm.username := JS.lit "ann";
          LoginForm.password := JS.lit "secret1" |};
     LoginForm.errors := ∅; LoginForm.isLoading := false |}.

Definition short_password : LoginForm.State :=
  {| LoginForm.formData :=
       {| LoginForm.username := JS.lit "ann";
          LoginForm.password := JS.lit "abc" |};
     LoginForm.errors := ∅; LoginForm.isLoading := false |}.




(** The timer that delays the navigation after an upload. *)
Definition is_settle_timer (e : effect) : bool :=
  match e with
  | SetTimeout ms => ms =? 1500
  | _ => false
  end.

(** A selection of the multi-file view: a PDF, a picture and a PDF that is
    too large. *)
Definition picture : File :=
  {| name := JS.lit "photo.png"; size := 1024; type := JS.lit "image/png" |}.

Definition pdf_12MB : File :=
  {| name := JS.lit "atlas.pdf"; size := 12 * 1024 * 1024;
     type := JS.lit "application/pdf" |}.

(** Whether some call of a chat view has not settled. *)
Definition waiting {A} (calls : list A) : bool :=
  match calls with
  | [] => false
  | _ :: _ => true
  end.

(** The loading flag tells whether a call is out, and there is at most
    one. *)
Definition in_step {A} (loading : bool) (calls : list A) : Prop :=
  loading = waiting calls ∧ (length calls ≤ 1)%nat.

Definition b2n (b : bool) : nat := if b then 1%nat else 0%nat.


(** A question, the answer to it, and a user who cleared the chat while
    waiting. *)
Definition answered : outcome ChatBody :=
  Resolved {| reply := Some (JS.lit "This document covers...") |}.


(* ===================================================================== *)
(** * Properties *)
(* ===================================================================== *)

(** ** Session credential and guards *)

Section Session.

Implicit Types (ls : gmap string (list N)) (b : Browser).

Lemma getItem_removeItem ls key :
  Storage.getItem key (Storage.removeItem key ls) = None.
Proof. apply lookup_delete_eq. Qed.

Lemma getItem_removeItem_ne ls key key' :
  key ≠ key' →
  Storage.getItem key' (Storage.removeItem key ls) = Storage.getItem key' ls.
Proof. intros. by apply lookup_delete_ne. Qed.

Lemma getItem_setItem ls key v :
  Storage.getItem key (Storage.setItem key v ls) = Some v.
Proof. apply lookup_insert_eq. Qed.

Lemma on_mount_no_token ls :
  Storage.getItem "token" ls = None →
  ChatUploadGuard.on_mount ls = Redirect "/login"
  ∧ ChatUploadGuard.on_mount_retry ls = Redirect "/Login".
Proof.
  unfold ChatUploadGuard.on_mount, ChatUploadGuard.on_mount_retry.
  by intros ->.
Qed.

(** Writes that store no token leave an absent token absent. *)
Lemma no_token_preserved (ops : list Storage.op) ls :
  Storage.getItem "token" ls = None →
  forallb (fun o => negb (Storage.writes "token" o)) ops = true →
  Storage.getItem "token" (foldl (fun acc o => Storage.apply o acc) ls ops)
  = None.
Proof.
  revert ls. induction ops as [|o ops IH]; intros ls Hnone Hops; [done|].
  simpl in Hops. apply andb_true_iff in Hops as [Ho Hops].
  simpl. apply IH; [|done].
  destruct o as [k v|k]; simpl in *.
  - unfold Storage.getItem, Storage.setItem.
    rewrite lookup_insert_ne; [done|].
    intros ->. by rewrite String.eqb_refl in Ho.
  - unfold Storage.getItem, Storage.removeItem.
    destruct (decide (k = "token")) as [->|Hne].
    + apply lookup_delete_eq.
    + by rewrite lookup_delete_ne.
Qed.

End Session.

(** C1, as amended: for every error with status 401 that passes the
    response interceptor of the gateway (either variant), the token is
    removed from the storage by exactly one [removeItem] before the
    promise is rejected with that same error, the location is set to the
    login view, and the guard that reads the token (the mount check of
    ChatUpload) redirects to the login view on the resulting storage and
    on every storage reached from it by writes that store no token. *)
Theorem C1_unauthorized_clears_token (error : AxiosError) (b : Browser) :
  is_unauthorized error = true →
  ∀ gateway, gateway = Api.response_error ∨ gateway = Api.response_error' →
  let '(b', t, rejected) := gateway error b in
  rejected = error
  ∧ Storage.getItem "token" (localStorage b') = None
  ∧ count (is_removal "token") t = 1%nat
  ∧ location_href b' = "/login"
  ∧ ∀ ops : list Storage.op,
      forallb (fun o => negb (Storage.writes "token" o)) ops = true →
      let later :=
        foldl (fun acc o => Storage.apply o acc) (localStorage b') ops in
      ChatUploadGuard.route later "/chatUpload" = Redirect "/login"
      ∧ ChatUploadGuard.on_mount later = Redirect "/login"
      ∧ ChatUploadGuard.on_mount_retry later = Redirect "/Login".
Proof.
  intros H401 gateway [-> | ->];
    unfold Api.response_error, Api.response_error'; rewrite H401; simpl.
  - assert (Storage.getItem "token"
              (Storage.removeItem "token" (localStorage b)) = None) as Hnone
      by apply getItem_removeItem.
    split_and!; try done.
    intros ops Hops.
    edestruct on_mount_no_token as [H1 H2];
      [by apply no_token_preserved | split_and!; [exact H1 | exact H1 | exact H2]].
  - assert (Storage.getItem "token"
              (Storage.removeItem "username"
                 (Storage.removeItem "token" (localStorage b))) = None)
      as Hnone.
    { rewrite getItem_removeItem_ne; [apply getItem_removeItem | done]. }
    split_and!; try done.
    intros ops Hops.
    edestruct on_mount_no_token as [H1 H2];
      [by apply no_token_preserved | split_and!; [exact H1 | exact H1 | exact H2]].
Qed.

Lemma C1_unauthorized_clears_token_witness :
  is_unauthorized unauthorized = true
  ∧ ChatUploadGuard.on_mount
      (localStorage (Api.response_error unauthorized signed_in).1.1)
    = Redirect "/login".
Proof.
  split; [reflexivity|].
  pose proof (C1_unauthorized_clears_token unauthorized signed_in
                eq_refl Api.response_error (or_introl eq_refl)) as H.
  destruct (Api.response_error unauthorized signed_in) as [[b' t] r].
  destruct H as (_ & _ & _ & _ & H).
  exact (proj1 (proj2 (H [] eq_refl))).
Defined.

(** C1 as stated fails at the routes that do not consult the token: the
    guard of the protected routes reads the [isAuthenticated] flag, which
    the interceptor leaves in place, and the routes of the App.js with the
    navigation bar have no guard at all, so after a 401 the protected
    views are still rendered. *)
Lemma C1_counterexample :
  let after := localStorage (Api.response_error unauthorized signed_in).1.1 in
  let after' := localStorage (Api.response_error' unauthorized signed_in).1.1 in
  is_unauthorized unauthorized = true
  ∧ Storage.getItem "token" after = None
  ∧ App.route after "/chat" = Render
  ∧ App.route after' "/chat" = Render
  ∧ denies (App.ProtectedRoute after) = false
  ∧ AppPlain.route "/upload" = Render
  ∧ AppPlain.route "/chatbot" = Render.
Proof. vm_compute. done. Qed.

(** C9, as amended: the logout handlers of the navigation bar remove the
    token (one of them the user name as well), so the storage holds no
    token afterwards; the logout handler of the views behind
    [ProtectedRoute] removes the flag that guard reads, which then denies;
    the logout handler of ChatUpload leaves the storage as it is and only
    navigates to the login view. *)
Theorem C9_logout (ls : gmap string (list N)) :
  Storage.getItem "token" (Logout.Navbar_handleLogout ls).1 = None
  ∧ Storage.getItem "token" (Logout.Navbar_handleLogout' ls).1 = None
  ∧ Storage.getItem "username" (Logout.Navbar_handleLogout' ls).1 = None
  ∧ Storage.getItem "isAuthenticated" (Logout.Chatbot_handleLogout ls).1 = None
  ∧ App.ProtectedRoute (Logout.Chatbot_handleLogout ls).1 = Redirect "/"
  ∧ Logout.ChatUpload_handleLogout ls = (ls, [Navigate "/login"]).
Proof.
  assert (Storage.getItem "isAuthenticated" (Logout.Chatbot_handleLogout ls).1
          = None) as Hflag.
  { simpl. rewrite !getItem_removeItem_ne by done. apply getItem_removeItem. }
  repeat split.
  - apply getItem_removeItem.
  - simpl. rewrite getItem_removeItem_ne by done. apply getItem_removeItem.
  - apply getItem_removeItem.
  - exact Hflag.
  - unfold App.ProtectedRoute. by rewrite Hflag.
Qed.

(** C9 as stated fails for the logout of ChatUpload: the token is still
    in the storage afterwards. *)
Lemma C9_counterexample :
  Storage.getItem "token"
    (Logout.ChatUpload_handleLogout (localStorage signed_in)).1
  = Some (JS.lit "abc")
  ∧ ChatUploadGuard.on_mount
      (Logout.ChatUpload_handleLogout (localStorage signed_in)).1 = Render.
Proof. vm_compute. done. Qed.

(** ** Upload validation *)

Section UploadValidation.

Lemma handleFileChange_accepted sel st :
  accepted st → accepted (Upload.handleFileChange sel st).1.
Proof.
  unfold accepted, Upload.handleFileChange. intros Hst.
  destruct sel as [f|]; [|done].
  destruct (size f >? Upload.MAX_SIZE) eqn:Hsz; simpl; [done|lia].
Qed.

Lemma step_accepted ev st :
  accepted st →
  accepted (Upload.step ev st).1 ∧ Forall within_limit (Upload.step ev st).2.
Proof.
  intros Hst. destruct ev as [sel | ps r]; simpl.
  - split; [by apply handleFileChange_accepted|].
    unfold Upload.handleFileChange.
    destruct sel as [f|]; [destruct (size f >? _)|]; simpl; constructor.
  - unfold Upload.handleSubmit, accepted in *.
    destruct (Upload.file st) as [f|] eqn:Hf; [|by split; simpl; [|constructor]].
    destruct r; simpl; (split; [done|]); repeat constructor; done.
Qed.

Lemma run_accepted evs st :
  accepted st → Forall within_limit (Upload.run evs st).2.
Proof.
  revert st. induction evs as [|ev evs IH]; intros st Hst; simpl.
  - constructor.
  - destruct (step_accepted ev st Hst) as [Hst1 Ht1].
    destruct (Upload.step ev st) as [st1 t1]; simpl in *.
    specialize (IH st1 Hst1).
    destruct (Upload.run evs st1) as [st2 t2]; simpl in *.
    by apply Forall_app.
Qed.

End UploadValidation.

(** C2: a selected file larger than the limit is rejected by
    [handleFileChange] (the file held by the view is unchanged, the error
    is shown, nothing is sent), no sequence of selections and submissions
    of the Upload view ever posts it, and in the ChatUpload view (both
    variants) [handleFileChange] stops at the alert, before the transfer. *)
Theorem C2_oversized_never_sent (f : File) :
  size f > Upload.MAX_SIZE →
  (∀ st, Upload.handleFileChange (Some f) st
         = ({| Upload.file := Upload.file st;
               Upload.isLoading := Upload.isLoading st;
               Upload.error := JS.lit "File size exceeds 5MB limit";
               Upload.success := Upload.success st;
               Upload.progress := Upload.progress st |}, []))
  ∧ (∀ evs path field,
       HttpPost path field (name f) (size f)
       ∉ (Upload.run evs Upload.initial).2)
  ∧ (∀ result files st,
       ChatUpload.handleFileChange (Some f) result files st
       = (st, [Alert (JS.lit "File > 5MB. Choose a smaller file.")]))
  ∧ (∀ result backend st,
       ChatUpload.handleFileChange_retry (Some f) result backend st
       = (st, [Alert (JS.lit
                 "File size exceeds 5MB. Please choose a smaller file.")])).
Proof.
  intros Hbig.
  assert ((size f >? Upload.MAX_SIZE) = true) as Hgt by lia.
  repeat split.
  - intros st. unfold Upload.handleFileChange. by rewrite Hgt.
  - intros evs path field Hin.
    pose proof (run_accepted evs Upload.initial I) as Hall.
    rewrite Forall_forall in Hall. apply Hall in Hin. simpl in Hin. lia.
  - intros. unfold ChatUpload.handleFileChange.
    change ChatUpload.MAX_SIZE with Upload.MAX_SIZE. by rewrite Hgt.
  - intros. unfold ChatUpload.handleFileChange_retry.
    change ChatUpload.MAX_SIZE with Upload.MAX_SIZE. by rewrite Hgt.
Qed.

Lemma C2_oversized_never_sent_witness :
  size pdf_6MB > Upload.MAX_SIZE
  ∧ ∀ evs path field,
      HttpPost path field (name pdf_6MB) (size pdf_6MB)
      ∉ (Upload.run evs Upload.initial).2.
Proof.
  assert (size pdf_6MB > Upload.MAX_SIZE) as Hbig by (vm_compute; done).
  split; [exact Hbig|].
  exact (proj1 (proj2 (C2_oversized_never_sent pdf_6MB Hbig))).
Defined.

(** ** The file list *)

Section FileList.

Implicit Types (backend : nat → outcome FilesResponse)
               (cache : list DocumentRecord).

Lemma count_app p (t1 t2 : list effect) :
  count p (t1 ++ t2) = (count p t1 + count p t2)%nat.
Proof. unfold count. by rewrite List.filter_app, length_app. Qed.

Lemma count_cons p e (t : list effect) :
  count p (e :: t) = ((if p e then 1 else 0) + count p t)%nat.
Proof. unfold count. simpl. by destruct (p e). Qed.

(** One call of [fetchFiles], unfolded on whether its GET failed. *)
Lemma fetchFiles_retry_ok n backend k cache :
  failed (backend k) = false →
  ∃ body, backend k = Resolved {| data := Some body |}
    ∧ ChatUpload.fetchFiles_retry n backend k cache
      = (match files body with Some l => l | None => [] end,
         [HttpGet "/files"], []).
Proof.
  intros Hok. destruct (backend k) as [[[body|]]|err] eqn:Hk; try done.
  exists body. split; [done|].
  destruct n; simpl; by rewrite Hk.
Qed.

Lemma fetchFiles_retry_failed_0 backend k cache :
  failed (backend k) = true →
  ChatUpload.fetchFiles_retry 0 backend k cache
  = (cache, [HttpGet "/files"; ConsoleError], []).
Proof.
  intros Hf. simpl. by destruct (backend k) as [[[body|]]|err].
Qed.

Lemma fetchFiles_retry_failed_S n backend k cache :
  failed (backend k) = true →
  ChatUpload.fetchFiles_retry (S n) backend k cache
  = let r := ChatUpload.fetchFiles_retry n backend (S k) cache in
    (r.1.1, [HttpGet "/files"; ConsoleError; SetTimeout 500], r.1.2 ++ r.2).
Proof.
  intros Hf. simpl.
  destruct (ChatUpload.fetchFiles_retry n backend (S k) cache) as [[l now] later].
  by destruct (backend k) as [[[body|]]|err].
Qed.

(** The number of GETs is bounded by the retry count, and every GET but
    the first follows a timer of 500ms. *)
Lemma attempts_bounded n backend k cache :
  let r := ChatUpload.fetchFiles_retry n backend k cache in
  (1 ≤ attempts r ≤ S n)%nat ∧ retry_timers r = (attempts r - 1)%nat.
Proof.
  revert k. induction n as [|n IH]; intros k;
    destruct (failed (backend k)) eqn:Hf.
  - rewrite fetchFiles_retry_failed_0 by done. vm_compute. lia.
  - destruct (fetchFiles_retry_ok 0 backend k cache Hf) as (body & _ & ->).
    vm_compute. lia.
  - rewrite fetchFiles_retry_failed_S by done.
    specialize (IH (S k)). cbv zeta in *.
    unfold attempts, retry_timers in *. cbn [fst snd app] in *.
    set (t := _ ++ _) in *. rewrite !count_cons.
    simpl (is_refresh _). simpl (is_retry_timer _). cbv iota. lia.
  - destruct (fetchFiles_retry_ok (S n) backend k cache Hf) as (body & _ & ->).
    vm_compute. lia.
Qed.

(** When every attempt fails the list is the one held before, and all
    the attempts were made. *)
Lemma exhausted_keeps_cache n backend k cache :
  (∀ i, (i ≤ n)%nat → failed (backend (k + i)%nat) = true) →
  let r := ChatUpload.fetchFiles_retry n backend k cache in
  r.1.1 = cache ∧ attempts r = S n.
Proof.
  revert k. induction n as [|n IH]; intros k Hall.
  - rewrite fetchFiles_retry_failed_0.
    + by vm_compute.
    + rewrite <- (Nat.add_0_r k). by apply Hall.
  - rewrite fetchFiles_retry_failed_S.
    + destruct (IH (S k)) as [Hl Ha].
      { intros i Hi. replace (S k + i)%nat with (k + S i)%nat by lia.
        apply Hall. lia. }
      cbv zeta in *. split; [done|].
      unfold attempts in *. cbn [fst snd app] in *.
      set (t := _ ++ _) in *. rewrite !count_cons.
      simpl (is_refresh _). cbv iota. lia.
    + rewrite <- (Nat.add_0_r k). apply Hall. lia.
Qed.


End FileList.

(** C4, as amended: a call of [fetchFiles] (which the program always makes
    with the default retry count 1) makes at least one and at most two GETs
    of the file list, the second one after a timer of 500ms; when both
    fail, the list held before is kept as it is, also when it was
    populated. The one-attempt variant keeps the list on a failure too,
    and at any retry count [n] there are at most [n + 1] GETs and the list
    is kept when all of them fail. *)
Theorem C4_bounded_retry (backend : nat → outcome FilesResponse) (k : nat)
    (cache : list DocumentRecord) :
  let r := ChatUpload.fetchFiles_retry 1 backend k cache in
  (1 ≤ attempts r ≤ 2)%nat
  ∧ retry_timers r = (attempts r - 1)%nat
  ∧ (failed (backend k) = true → failed (backend (S k)) = true →
     r = (cache, [HttpGet "/files"; ConsoleError; SetTimeout 500],
          [HttpGet "/files"; ConsoleError]))
  ∧ (failed (backend k) = true →
     (ChatUpload.fetchFiles (backend k) cache).1 = cache)
  ∧ (∀ n, let r' := ChatUpload.fetchFiles_retry n backend k cache in
          (1 ≤ attempts r' ≤ S n)%nat
          ∧ ((∀ i, (i ≤ n)%nat → failed (backend (k + i)%nat) = true) →
             r'.1.1 = cache)).
Proof.
  cbv zeta. pose proof (attempts_bounded 1 backend k cache) as [Hb Ht].
  split_and!; try done; try lia.
  - intros H0 H1. rewrite fetchFiles_retry_failed_S by done.
    by rewrite fetchFiles_retry_failed_0.
  - intros H0. unfold ChatUpload.fetchFiles.
    by destruct (backend k) as [[[body|]]|err].
  - intros n. split.
    + apply (attempts_bounded n backend k cache).
    + intros Hall. by apply exhausted_keeps_cache.
Qed.

Lemma C4_bounded_retry_witness :
  failed (always_fails 0) = true ∧ failed (always_fails 1) = true
  ∧ (ChatUpload.fetchFiles_retry 1 always_fails 0 two_documents).1.1
    = two_documents.
Proof.
  split; [reflexivity|]. split; [reflexivity|].
  destruct (C4_bounded_retry always_fails 0 two_documents) as (_ & _ & H & _).
  by rewrite (H eq_refl eq_refl).
Defined.

(** C4 as stated fails where the file list fails twice and would answer
    the third time: there is no third attempt, two GETs are made and the
    list stays the old one instead of becoming the fetched one. *)
Lemma C4_counterexample :
  let r := ChatUpload.fetchFiles_retry 1 fails_twice 0 one_document in
  failed (fails_twice 0) = true ∧ failed (fails_twice 1) = true
  ∧ fails_twice 2 = listing (Some two_documents)
  ∧ attempts r = 2%nat
  ∧ r.1.1 = one_document
  ∧ r.1.1 ≠ two_documents.
Proof. vm_compute. repeat split; done. Qed.

(** C10: when the GET of the file list succeeds with a body that has no
    [files] field, [fetchFiles] replaces the list by the empty list,
    whatever it held, in both variants and at any retry count. *)
Theorem C10_missing_files_field_empties
    (n : nat) (backend : nat → outcome FilesResponse) (k : nat)
    (cache : list DocumentRecord) :
  backend k = listing None →
  ChatUpload.fetchFiles_retry n backend k cache = ([], [HttpGet "/files"], [])
  ∧ ChatUpload.fetchFiles (backend k) cache = ([], [HttpGet "/files"]).
Proof.
  intros Hk. split.
  - destruct n; simpl; by rewrite Hk.
  - by rewrite Hk.
Qed.

Lemma C10_missing_files_field_empties_witness :
  (λ _ : nat, listing None) 0%nat = listing None
  ∧ (ChatUpload.fetchFiles_retry 1 (λ _, listing None) 0 two_documents).1.1
    = []
  ∧ two_documents ≠ [].
Proof.
  split; [reflexivity|]. split; [|done].
  by rewrite (proj1 (C10_missing_files_field_empties
                       1 (λ _, listing None) 0 two_documents eq_refl)).
Defined.

(** ** After a successful upload *)




(** ** Sends are serialized *)

Section Serialized.

Lemma Chatbot_send_while_loading now w :
  Chatbot.isLoading (Chatbot.view w) = true →
  Chatbot.handleSendMessage now w = (w, []).
Proof.
  intros H. unfold Chatbot.handleSendMessage. rewrite H.
  by rewrite orb_true_r.
Qed.

Lemma Chatbot_step_serialized ev w :
  serialized (Chatbot.isLoading (Chatbot.view w))
             (length (Chatbot.outstanding w)) →
  serialized (Chatbot.isLoading (Chatbot.view (Chatbot.step ev w).1))
             (length (Chatbot.outstanding (Chatbot.step ev w).1)).
Proof.
  intros [Hle Hload]. destruct ev as [s | now | result now | now]; simpl.
  - done.
  - unfold Chatbot.handleSendMessage.
    destruct (negb _ || Chatbot.isLoading (Chatbot.view w)) eqn:Hguard.
    + done.
    + apply orb_false_iff in Hguard as [_ Hidle]. simpl.
      rewrite length_app. simpl.
      destruct (length (Chatbot.outstanding w)) as [|n] eqn:Hn.
      * split; [lia | done].
      * rewrite Hload in Hidle; [done | lia].
  - unfold Chatbot.settle.
    destruct (Chatbot.outstanding w) as [|c others] eqn:Hout.
    + simpl. rewrite Hout. done.
    + simpl in Hle. destruct result; simpl; split; try lia; intros; lia.
  - done.
Qed.

Lemma Chatbot_run_serialized evs w :
  serialized (Chatbot.isLoading (Chatbot.view w))
             (length (Chatbot.outstanding w)) →
  serialized (Chatbot.isLoading (Chatbot.view (Chatbot.run evs w).1))
             (length (Chatbot.outstanding (Chatbot.run evs w).1)).
Proof.
  revert w. induction evs as [|ev evs IH]; intros w Hw; simpl; [done|].
  pose proof (Chatbot_step_serialized ev w Hw) as H1.
  destruct (Chatbot.step ev w) as [w1 t1]. simpl in H1.
  specialize (IH w1 H1).
  by destruct (Chatbot.run evs w1) as [w2 t2].
Qed.

Lemma Stored_submit_while_loading w :
  ChatbotStored.isLoading (ChatbotStored.view w) = true →
  ChatbotStored.handleSubmit w = (w, []).
Proof.
  intros H. unfold ChatbotStored.handleSubmit. rewrite H.
  by rewrite orb_true_r.
Qed.

Lemma Stored_step_serialized ev w :
  serialized (ChatbotStored.isLoading (ChatbotStored.view w))
             (length (ChatbotStored.outstanding w)) →
  serialized
    (ChatbotStored.isLoading (ChatbotStored.view (ChatbotStored.step ev w).1))
    (length (ChatbotStored.outstanding (ChatbotStored.step ev w).1)).
Proof.
  intros [Hle Hload]. destruct ev as [s | | result | confirmed]; simpl.
  - done.
  - unfold ChatbotStored.handleSubmit.
    destruct (negb _ || ChatbotStored.isLoading (ChatbotStored.view w))
      eqn:Hguard.
    + done.
    + apply orb_false_iff in Hguard as [_ Hidle]. simpl.
      rewrite length_app. simpl.
      destruct (length (ChatbotStored.outstanding w)) as [|n] eqn:Hn.
      * split; [lia | done].
      * rewrite Hload in Hidle; [done | lia].
  - unfold ChatbotStored.settle.
    destruct (ChatbotStored.outstanding w) as [|c others] eqn:Hout.
    + simpl. rewrite Hout. done.
    + simpl in Hle. simpl. split; try lia; intros; lia.
  - destruct confirmed; done.
Qed.

Lemma Stored_run_serialized evs w :
  serialized (ChatbotStored.isLoading (ChatbotStored.view w))
             (length (ChatbotStored.outstanding w)) →
  serialized
    (ChatbotStored.isLoading (ChatbotStored.view (ChatbotStored.run evs w).1))
    (length (ChatbotStored.outstanding (ChatbotStored.run evs w).1)).
Proof.
  revert w. induction evs as [|ev evs IH]; intros w Hw; simpl; [done|].
  pose proof (Stored_step_serialized ev w Hw) as H1.
  destruct (ChatbotStored.step ev w) as [w1 t1]. simpl in H1.
  specialize (IH w1 H1).
  by destruct (ChatbotStored.run evs w1) as [w2 t2].
Qed.

End Serialized.

(** C3: in both Chatbot views, after any sequence of typing, sending,
    settling and clearing, at most one chat call has not settled, and
    while one has not, the send handler changes nothing: the log, the
    input and the storage stay as they are and no call is started. *)
Theorem C3_send_while_pending_is_noop :
  (∀ evs t0,
     let w := (Chatbot.run evs (Chatbot.initial t0)).1 in
     (length (Chatbot.outstanding w) ≤ 1)%nat
     ∧ (Chatbot.outstanding w ≠ [] →
        ∀ now, Chatbot.step (Chatbot.Send now) w = (w, [])))
  ∧ (∀ evs ls,
       let w := (ChatbotStored.run evs (ChatbotStored.initial ls)).1 in
       (length (ChatbotStored.outstanding w) ≤ 1)%nat
       ∧ (ChatbotStored.outstanding w ≠ [] →
          ChatbotStored.step ChatbotStored.Submit w = (w, []))).
Proof.
  split.
  - intros evs t0 w.
    destruct (Chatbot_run_serialized evs (Chatbot.initial t0)) as [Hle Hload].
    { split; [simpl; lia | done]. }
    fold w in Hle, Hload. split; [done|].
    intros Hout now. apply Chatbot_send_while_loading, Hload.
    by destruct (Chatbot.outstanding w).
  - intros evs ls w.
    destruct (Stored_run_serialized evs (ChatbotStored.initial ls))
      as [Hle Hload].
    { split; [simpl; lia | done]. }
    fold w in Hle, Hload. split; [done|].
    intros Hout. apply Stored_submit_while_loading, Hload.
    by destruct (ChatbotStored.outstanding w).
Qed.

Lemma C3_send_while_pending_is_noop_witness :
  let w := (Chatbot.run asked (Chatbot.initial 0)).1 in
  Chatbot.outstanding w ≠ []
  ∧ Chatbot.step (Chatbot.Send 2000) w = (w, []).
Proof.
  intros w.
  assert (Chatbot.outstanding w ≠ []) as Hout by (vm_compute; done).
  split; [exact Hout|].
  exact (proj2 (proj1 C3_send_while_pending_is_noop asked 0) Hout 2000).
Defined.

(** ** A send that fails *)

Section FailedSend.






End FailedSend.




(** ** The persisted conversation *)

Section StringRoundTrip.

Local Open Scope N_scope.

Lemma unhex_hex_digit d : d < 16 → JSON.unhex (JSON.hex_digit d) = Some d.
Proof.
  intros Hd. unfold JSON.unhex, JSON.hex_digit.
  destruct (N.ltb_spec d 10) as [Hlt | Hge].
  - replace ((48 <=? 48 + d) && (48 + d <=? 57)) with true.
    + f_equal. lia.
    + symmetry. apply andb_true_iff. split; apply N.leb_le; lia.
  - replace ((48 <=? 87 + d) && (87 + d <=? 57)) with false.
    + replace ((97 <=? 87 + d) && (87 + d <=? 102)) with true.
      * f_equal. lia.
      * symmetry. apply andb_true_iff. split; apply N.leb_le; lia.
    + symmetry. apply andb_false_iff. right. apply N.leb_gt. lia.
Qed.

Lemma hex_digits_recombine c :
  c < 65536 →
  ((c / 4096 mod 16 * 16 + c / 256 mod 16) * 16 + c / 16 mod 16) * 16
  + c mod 16 = c.
Proof.
  intros Hc. zify. Z.to_euclidean_division_equations. lia.
Qed.

(** An escape [\uXXXX] reads back as the code unit it was written for. *)
Lemma parse_chars_unicode_escape c tail :
  c < 65536 →
  JSON.parse_chars (JSON.unicode_escape c ++ tail)
  = match JSON.parse_chars tail with
    | Some (t, rest) => Some (c :: t, rest)
    | None => None
    end.
Proof.
  intros Hc. unfold JSON.unicode_escape.
  cbn [app JSON.parse_chars].
  change (92 =? 34) with false. change (92 =? 92) with true.
  change (117 =? 117) with true. cbv iota.
  rewrite !unhex_hex_digit by (apply N.mod_lt; done).
  by rewrite hex_digits_recombine.
Qed.

(** A code unit written by itself reads back as itself. *)
Lemma parse_chars_raw c tail :
  c ≠ 34 → c ≠ 92 → 32 <= c →
  JSON.parse_chars (c :: tail)
  = match JSON.parse_chars tail with
    | Some (t, rest) => Some (c :: t, rest)
    | None => None
    end.
Proof.
  intros H34 H92 H32. cbn [JSON.parse_chars].
  rewrite (proj2 (N.eqb_neq c 34) H34), (proj2 (N.eqb_neq c 92) H92).
  by rewrite (proj2 (N.ltb_ge c 32) H32).
Qed.

Lemma parse_chars_quote_unit c tail :
  JSON.parse_chars (JSON.quote_unit c ++ tail)
  = match JSON.parse_chars tail with
    | Some (t, rest) => Some (c :: t, rest)
    | None => None
    end.
Proof.
  unfold JSON.quote_unit.
  destruct (N.eqb_spec c 8) as [-> | H8]; [done|].
  destruct (N.eqb_spec c 9) as [-> | H9]; [done|].
  destruct (N.eqb_spec c 10) as [-> | H10]; [done|].
  destruct (N.eqb_spec c 12) as [-> | H12]; [done|].
  destruct (N.eqb_spec c 13) as [-> | H13]; [done|].
  destruct (N.eqb_spec c 34) as [-> | H34]; [done|].
  destruct (N.eqb_spec c 92) as [-> | H92]; [done|].
  destruct ((c <? 32) || JSON.is_high_surrogate c || JSON.is_low_surrogate c)
    eqn:Hesc.
  - apply parse_chars_unicode_escape.
    unfold JSON.is_high_surrogate, JSON.is_low_surrogate in Hesc.
    apply orb_true_iff in Hesc as [Hesc | Hlow].
    + apply orb_true_iff in Hesc as [Hctl | Hhigh].
      * apply N.ltb_lt in Hctl. lia.
      * apply andb_true_iff in Hhigh as [_ Hhigh].
        apply N.leb_le in Hhigh. lia.
    + apply andb_true_iff in Hlow as [_ Hlow]. apply N.leb_le in Hlow. lia.
  - apply orb_false_iff in Hesc as [Hesc _].
    apply orb_false_iff in Hesc as [Hctl _]. apply N.ltb_ge in Hctl.
    by apply parse_chars_raw.
Qed.

Lemma parse_chars_surrogate_pair h l tail :
  JSON.is_high_surrogate h = true → JSON.is_low_surrogate l = true →
  JSON.parse_chars (h :: l :: tail)
  = match JSON.parse_chars tail with
    | Some (t, rest) => Some (h :: l :: t, rest)
    | None => None
    end.
Proof.
  unfold JSON.is_high_surrogate, JSON.is_low_surrogate. intros Hh Hl.
  apply andb_true_iff in Hh as [Hh _]. apply N.leb_le in Hh.
  apply andb_true_iff in Hl as [Hl _]. apply N.leb_le in Hl.
  rewrite parse_chars_raw by lia. rewrite parse_chars_raw by lia.
  by destruct (JSON.parse_chars tail) as [[t rest]|].
Qed.

Lemma quote_units_step h l s :
  JSON.quote_units (h :: l :: s)
  = if JSON.is_high_surrogate h && JSON.is_low_surrogate l
    then h :: l :: JSON.quote_units s
    else JSON.quote_unit h ++ JSON.quote_units (l :: s).
Proof. reflexivity. Qed.

(** What [JSON.stringify] writes between the quotes of a string reads back
    as the string, up to the closing quote. *)
Lemma parse_chars_quote_units s rest :
  JSON.parse_chars (JSON.quote_units s ++ 34 :: rest) = Some (s, rest).
Proof.
  remember (length s) as n eqn:Hn.
  revert s Hn rest. induction (lt_wf n) as [n _ IH]. intros s Hn rest.
  destruct s as [|h [|l s]].
  - done.
  - cbn [JSON.quote_units]. by rewrite parse_chars_quote_unit.
  - rewrite quote_units_step.
    destruct (JSON.is_high_surrogate h && JSON.is_low_surrogate l) eqn:Hpair.
    + apply andb_true_iff in Hpair as [Hh Hl]. cbn [app].
      rewrite parse_chars_surrogate_pair by done.
      by rewrite (IH (length s)) by (simpl in Hn; lia || done).
    + rewrite <- app_assoc, parse_chars_quote_unit.
      by rewrite (IH (length (l :: s))) by (simpl in *; lia || done).
Qed.

End StringRoundTrip.

Section ConversationRoundTrip.

Local Open Scope N_scope.

Implicit Types (m : ChatbotStored.Message) (conv : list ChatbotStored.Message).

Lemma quote_app s rest :
  JSON.quote s ++ rest = 34 :: JSON.quote_units s ++ 34 :: rest.
Proof. unfold JSON.quote. simpl. by rewrite <- app_assoc. Qed.

(** A string value reads back, whatever follows it. *)
Lemma parse_value_string f s rest :
  JSON.parse_value (S f) (JSON.quote s ++ rest) = Some (JSON.Str s, rest).
Proof.
  rewrite quote_app. simpl. by rewrite parse_chars_quote_units.
Qed.

Lemma skip_ws_stop c r : JSON.is_ws c = false → JSON.skip_ws (c :: r) = c :: r.
Proof. intros H. simpl. by rewrite H. Qed.

(** One step of the member and element parsers. *)
Lemma parse_members_unfold f s :
  JSON.parse_members (S f) s
  = match JSON.skip_ws s with
    | c :: r =>
        if c =? 34 then
          match JSON.parse_chars r with
          | Some (k, r1) =>
              match JSON.skip_ws r1 with
              | c1 :: r2 =>
                  if c1 =? 58 then
                    match JSON.parse_value f r2 with
                    | Some (v, r3) =>
                        match JSON.skip_ws r3 with
                        | c3 :: r4 =>
                            if c3 =? 44 then
                              match JSON.parse_members f r4 with
                              | Some (ms, rest) => Some ((k, v) :: ms, rest)
                              | None => None
                              end
                            else if c3 =? 125 then Some ([(k, v)], r4)
                            else None
                        | [] => None
                        end
                    | None => None
                    end
                  else None
              | [] => None
              end
          | None => None
          end
        else None
    | [] => None
    end.
Proof. reflexivity. Qed.

Lemma parse_elements_unfold f s :
  JSON.parse_elements (S f) s
  = match JSON.parse_value f s with
    | Some (v, r) =>
        match JSON.skip_ws r with
        | c :: r' =>
            if c =? 44 then
              match JSON.parse_elements f r' with
              | Some (vs, rest) => Some (v :: vs, rest)
              | None => None
              end
            else if c =? 93 then Some ([v], r')
            else None
        | [] => None
        end
    | None => None
    end.
Proof. reflexivity. Qed.

(** A member whose value is a string, followed by a comma or by the
    closing brace. *)
Lemma parse_members_member f k s c rest :
  JSON.is_ws c = false →
  JSON.parse_members (S (S f))
    (JSON.quote k ++ 58 :: JSON.quote s ++ c :: rest)
  = if c =? 44 then
      match JSON.parse_members (S f) rest with
      | Some (ms, rest') => Some ((k, JSON.Str s) :: ms, rest')
      | None => None
      end
    else if c =? 125 then Some ([(k, JSON.Str s)], rest)
    else None.
Proof.
  intros Hc. rewrite quote_app, parse_members_unfold.
  rewrite skip_ws_stop by done. change (34 =? 34) with true. cbv iota.
  rewrite parse_chars_quote_units.
  rewrite skip_ws_stop by done. change (58 =? 58) with true. cbv iota.
  rewrite parse_value_string.
  by rewrite skip_ws_stop.
Qed.

(** An object whose first member starts right after the brace. *)
Lemma parse_value_object f k r :
  JSON.parse_value (S f) (123 :: JSON.quote k ++ r)
  = match JSON.parse_members f (JSON.quote k ++ r) with
    | Some (members, rest) => Some (JSON.object_of members, rest)
    | None => None
    end.
Proof. by rewrite quote_app. Qed.

Lemma object_of_message t name :
  JSON.object_of [(JS.lit "text", JSON.Str t); (JS.lit "sender", JSON.Str name)]
  = JSON.Obj [(JS.lit "text", JSON.Str t); (JS.lit "sender", JSON.Str name)].
Proof. by vm_compute. Qed.

(** What is written for a message. *)
Lemma stringify_message m rest :
  JSON.stringify (ChatbotStored.object m) ++ rest
  = match ChatbotStored.text m with
    | Some t =>
        123 :: JSON.quote (JS.lit "text") ++ 58 :: JSON.quote t
          ++ 44 :: JSON.quote (JS.lit "sender")
          ++ 58 :: JSON.quote (ChatbotStored.sender_name (ChatbotStored.sender m))
          ++ 125 :: rest
    | None =>
        123 :: JSON.quote (JS.lit "sender")
          ++ 58 :: JSON.quote (ChatbotStored.sender_name (ChatbotStored.sender m))
          ++ 125 :: rest
    end.
Proof.
  destruct m as [[t|] sd]; unfold ChatbotStored.object;
    cbn [ChatbotStored.text ChatbotStored.sender app JSON.stringify map
         JSON.join fst snd].
  - by rewrite <- !app_assoc.
  - by rewrite <- !app_assoc.
Qed.

(** A message reads back, whatever follows it. *)
Lemma parse_value_message f m rest :
  JSON.parse_value (S (S (S (S f))))
    (JSON.stringify (ChatbotStored.object m) ++ rest)
  = Some (ChatbotStored.object m, rest).
Proof.
  rewrite stringify_message. destruct m as [[t|] sd];
    cbn [ChatbotStored.text ChatbotStored.sender];
    rewrite parse_value_object, parse_members_member by done;
    change (44 =? 44) with true; change (125 =? 44) with false;
    change (125 =? 125) with true; cbv iota.
  - rewrite parse_members_member by done.
    change (125 =? 44) with false. change (125 =? 125) with true. cbv iota.
    by rewrite object_of_message.
  - reflexivity.
Qed.

Lemma join_cons sep p q parts :
  JSON.join sep (p :: q :: parts) = p ++ sep :: JSON.join sep (q :: parts).
Proof. reflexivity. Qed.

(** The elements of a non-empty array of messages read back, given fuel
    for its length. *)
Lemma parse_elements_messages conv m f rest :
  (length conv + 5 ≤ f)%nat →
  JSON.parse_elements f
    (JSON.join 44 (map JSON.stringify (map ChatbotStored.object (m :: conv)))
       ++ 93 :: rest)
  = Some (map ChatbotStored.object (m :: conv), rest).
Proof.
  revert m f. induction conv as [|m' conv IH]; intros m f Hf.
  - destruct f as [|[|[|[|[|f]]]]]; simpl in Hf; try lia.
    rewrite parse_elements_unfold. cbn [map JSON.join].
    rewrite parse_value_message. by rewrite skip_ws_stop.
  - destruct f as [|[|[|[|[|f]]]]]; simpl in Hf; try lia.
    rewrite parse_elements_unfold.
    change (map JSON.stringify (map ChatbotStored.object (m :: m' :: conv)))
      with (JSON.stringify (ChatbotStored.object m)
              :: map JSON.stringify (map ChatbotStored.object (m' :: conv))).
    change (map JSON.stringify (map ChatbotStored.object (m' :: conv)))
      with (JSON.stringify (ChatbotStored.object m')
              :: map JSON.stringify (map ChatbotStored.object conv)).
    rewrite join_cons, <- app_assoc, parse_value_message.
    cbn [app]. rewrite skip_ws_stop by done.
    change (44 =? 44) with true. cbv iota.
    change (JSON.stringify (ChatbotStored.object m')
              :: map JSON.stringify (map ChatbotStored.object conv))
      with (map JSON.stringify (map ChatbotStored.object (m' :: conv))).
    rewrite IH by lia. reflexivity.
Qed.

Lemma join_length_parts sep (parts : list (list N)) :
  Forall (λ p, p ≠ []) parts →
  (length parts ≤ length (JSON.join sep parts))%nat.
Proof.
  induction 1 as [|p parts Hp Hparts IH]; [done|].
  destruct parts as [|q parts].
  - destruct p; [done | simpl; lia].
  - rewrite join_cons, length_app. cbn [length] in *. lia.
Qed.

Lemma join_length conv :
  (length conv
   ≤ length (JSON.join 44
               (map JSON.stringify (map ChatbotStored.object conv))))%nat.
Proof.
  etransitivity; [|apply join_length_parts].
  - by rewrite !length_map.
  - apply Forall_map, Forall_map, Forall_forall. intros m _. simpl.
    done.
Qed.

(** What [JSON.stringify] writes for a conversation, [JSON.parse] reads
    back as that conversation. *)
Lemma parse_stringify_conversation conv :
  JSON.parse (JSON.stringify (ChatbotStored.array conv))
  = Some (ChatbotStored.array conv).
Proof.
  unfold JSON.parse, ChatbotStored.array.
  set (text := JSON.stringify _).
  assert (text = 91 :: JSON.join 44
                         (map JSON.stringify (map ChatbotStored.object conv))
                    ++ [93]) as Htext by done.
  assert (length conv + 2 ≤ length text)%nat as Hlen.
  { rewrite Htext. simpl. rewrite length_app. simpl.
    pose proof (join_length conv). lia. }
  destruct (2 * length text + 2)%nat as [|fuel] eqn:Hfuel; [lia|].
  rewrite Htext. destruct conv as [|m conv].
  - reflexivity.
  - assert (∀ rest,
              JSON.parse_value (S fuel)
                (91 :: JSON.join 44
                         (map JSON.stringify
                            (map ChatbotStored.object (m :: conv))) ++ rest)
              = match JSON.parse_elements fuel
                        (JSON.join 44
                           (map JSON.stringify
                              (map ChatbotStored.object (m :: conv))) ++ rest)
                with
                | Some (items, rest') => Some (JSON.Arr items, rest')
                | None => None
                end) as Hstep.
    { intros rest. cbn [map]. destruct conv as [|m' conv].
      - cbn [JSON.join map]. rewrite stringify_message.
        by destruct (ChatbotStored.text m).
      - cbn [map]. rewrite join_cons, <- app_assoc, stringify_message.
        by destruct (ChatbotStored.text m). }
    rewrite Hstep, parse_elements_messages by (cbn [length] in Hlen; lia).
    reflexivity.
Qed.

End ConversationRoundTrip.

(** C6: for every conversation (a sequence of messages [{ text, sender }]
    with string fields), the load effect run on the storage the save
    effect wrote hands [setConversation] that same sequence; in
    particular this holds for the storage after every [setConversation]
    of the view. *)
Theorem C6_save_then_load
    (conversation : list ChatbotStored.Message) (ls : gmap string (list N)) :
  ChatbotStored.load (ChatbotStored.save conversation ls)
  = ChatbotStored.Restored (ChatbotStored.array conversation)
  ∧ ∀ loading input w calls,
      ChatbotStored.load
        (ChatbotStored.storage
           (ChatbotStored.setConversation conversation loading input w calls).1)
      = ChatbotStored.Restored (ChatbotStored.array conversation).
Proof.
  assert (∀ ls', ChatbotStored.load (ChatbotStored.save conversation ls')
                 = ChatbotStored.Restored (ChatbotStored.array conversation))
    as Hload.
  { intros ls'. unfold ChatbotStored.load, ChatbotStored.save.
    rewrite getItem_setItem.
    pose proof (parse_stringify_conversation conversation) as Hparse.
    destruct (JSON.stringify (ChatbotStored.array conversation))
      as [|c text] eqn:Htext; [done|].
    by rewrite Hparse. }
  split; [apply Hload|]. intros. apply Hload.
Qed.

(** C7, as amended: when the storage holds no snapshot, or an empty one,
    the load effect does nothing and the conversation is the empty one the
    view starts with; when it holds a snapshot that is not JSON,
    [JSON.parse] throws out of the load effect. *)
Theorem C7_load_without_snapshot (ls : gmap string (list N)) :
  (Storage.getItem "chatConversation" ls = None
   ∨ Storage.getItem "chatConversation" ls = Some [] →
   ChatbotStored.load ls = ChatbotStored.Nothing
   ∧ ChatbotStored.conversation (ChatbotStored.view (ChatbotStored.initial ls))
     = [])
  ∧ (∀ c text,
       Storage.getItem "chatConversation" ls = Some (c :: text) →
       JSON.parse (c :: text) = None →
       ChatbotStored.load ls = ChatbotStored.Thrown).
Proof.
  split.
  - intros [H | H]; unfold ChatbotStored.load; by rewrite H.
  - intros c text Hsome Hbad. unfold ChatbotStored.load.
    by rewrite Hsome, Hbad.
Qed.

Lemma C7_load_without_snapshot_witness :
  Storage.getItem "chatConversation" no_snapshot = None
  ∧ ChatbotStored.load no_snapshot = ChatbotStored.Nothing.
Proof.
  assert (Storage.getItem "chatConversation" no_snapshot = None) as H
    by reflexivity.
  split; [exact H|].
  exact (proj1 (proj1 (C7_load_without_snapshot no_snapshot) (or_introl H))).
Defined.

(** C7 as stated fails for a snapshot that was cut short: the load effect
    does not treat it as absent, [JSON.parse] throws (the text has no
    parse, whatever the fuel). *)
Lemma C7_counterexample :
  Storage.getItem "chatConversation" truncated_snapshot = Some (JS.lit "[{")
  ∧ (∀ fuel, JSON.parse_value fuel (JS.lit "[{") = None)
  ∧ JSON.parse (JS.lit "[{") = None
  ∧ ChatbotStored.load truncated_snapshot = ChatbotStored.Thrown
  ∧ ChatbotStored.load truncated_snapshot ≠ ChatbotStored.Nothing.
Proof.
  split_and!; try (by vm_compute).
  intros [|[|[|fuel]]]; reflexivity.
Qed.

(** ** The variants without the mechanism *)

(** The chat of ChatUpload has no pending flag: a second send while the
    first call is out is accepted too. *)
Remark ChatUpload_sends_overlap :
  let w := {| ChatUploadChat.messages := [];
              ChatUploadChat.input := JS.lit "first";
              ChatUploadChat.outstanding := [] |} in
  let w1 := (ChatUploadChat.sendMessage w).1 in
  let w2 := (ChatUploadChat.sendMessage
               {| ChatUploadChat.messages := ChatUploadChat.messages w1;
                  ChatUploadChat.input := JS.lit "second";
                  ChatUploadChat.outstanding := ChatUploadChat.outstanding w1 |}).1 in
  length (ChatUploadChat.outstanding w2) = 2%nat.
Proof. by vm_compute. Qed.

(** The multi-file Upload view keeps only files of an allowed type that
    are within its own limit of 10MB. *)
Remark UploadMulti_validFiles_within_limit picked f :
  In f (UploadMulti.validFiles picked) → size f <= UploadMulti.MAX_SIZE.
Proof.
  unfold UploadMulti.validFiles. rewrite filter_In. intros [_ H].
  apply andb_true_iff in H as [_ H]. apply negb_true_iff in H. lia.
Qed.

(* ===================================================================== *)
(** * Further properties of the views *)
(* ===================================================================== *)

(** ** The gateway and the routers *)

(** X1: after the gateway has handled a 401, the request interceptor
    attaches no Authorization header, on the resulting storage and on
    every storage reached from it by writes that store no token. *)
Theorem Gateway_unauthorized_drops_header (error : AxiosError) (b : Browser) :
  is_unauthorized error = true →
  ∀ (ops : list Storage.op) href,
    forallb (fun o => negb (Storage.writes "token" o)) ops = true →
    Api.request_interceptor
      {| localStorage :=
           foldl (fun acc o => Storage.apply o acc)
             (localStorage (Api.response_error error b).1.1) ops;
         location_href := href |} = None
    ∧ Api.request_interceptor
        {| localStorage :=
             foldl (fun acc o => Storage.apply o acc)
               (localStorage (Api.response_error' error b).1.1) ops;
           location_href := href |} = None.
Proof.
  intros H401 ops href Hops.
  unfold Api.response_error, Api.response_error', Api.request_interceptor.
  rewrite H401. cbn [fst snd localStorage].
  rewrite !no_token_preserved; try done.
  - rewrite getItem_removeItem_ne by done. apply getItem_removeItem.
  - apply getItem_removeItem.
Qed.

Lemma Gateway_unauthorized_drops_header_witness :
  is_unauthorized unauthorized = true
  ∧ Api.request_interceptor signed_in
    = Some (JS.lit "Bearer " ++ JS.lit "abc")
  ∧ Api.request_interceptor
      {| localStorage :=
           Storage.setItem "username" (JS.lit "ann")
             (localStorage (Api.response_error unauthorized signed_in).1.1);
         location_href := "/login" |} = None.
Proof.
  split; [reflexivity|]. split; [by vm_compute|].
  exact (proj1 (Gateway_unauthorized_drops_header unauthorized signed_in
                  eq_refl [Storage.Set_ "username" (JS.lit "ann")] "/login"
                  eq_refl)).
Defined.

(** X2: the gateway changes the browser for a 401 only, and handling a
    second 401 leaves the storage as the first one left it. *)
Theorem Gateway_clear_idempotent (e1 e2 : AxiosError) (b : Browser) :
  (is_unauthorized e1 = false →
   Api.response_error e1 b = (b, [], e1)
   ∧ Api.response_error' e1 b = (b, [], e1))
  ∧ (is_unauthorized e1 = true → is_unauthorized e2 = true →
     (Api.response_error e2 (Api.response_error e1 b).1.1).1.1
     = (Api.response_error e1 b).1.1
     ∧ (Api.response_error' e2 (Api.response_error' e1 b).1.1).1.1
       = (Api.response_error' e1 b).1.1).
Proof.
  unfold Api.response_error, Api.response_error'. split.
  - by intros ->.
  - intros -> ->. cbn [fst snd localStorage]. unfold Storage.removeItem.
    split; f_equal; apply map_eq; intros k; rewrite !lookup_delete;
      by repeat case_decide.
Qed.

Lemma Gateway_clear_idempotent_witness :
  is_unauthorized network_down = false
  ∧ Api.response_error network_down signed_in = (signed_in, [], network_down)
  ∧ is_unauthorized unauthorized = true
  ∧ (Api.response_error unauthorized
       (Api.response_error unauthorized signed_in).1.1).1.1
    = (Api.response_error unauthorized signed_in).1.1.
Proof.
  pose proof (Gateway_clear_idempotent network_down unauthorized signed_in)
    as [Hother _].
  pose proof (Gateway_clear_idempotent unauthorized unauthorized signed_in)
    as [_ Htwice].
  split; [reflexivity|]. split; [exact (proj1 (Hother eq_refl))|].
  split; [reflexivity|]. exact (proj1 (Htwice eq_refl eq_refl)).
Defined.



(** ** The forms *)

Section Forms.

Implicit Types (ls : gmap string (list N)).

Lemma validateForm_well_formed d :
  (LoginForm.validateForm d).2 = well_formed d.
Proof.
  unfold LoginForm.validateForm, LoginForm.newErrors, well_formed.
  cbn [snd].
  destruct (JS.trim (LoginForm.username d)) as [|c u];
    destruct (LoginForm.password d) as [|p pw]; cbn [JS.truthy negb andb];
    try (by vm_compute).
  - destruct (Z.of_nat (length (p :: pw)) <? 6) eqn:Hlen;
      destruct (6 <=? Z.of_nat (length (p :: pw))) eqn:Hge;
      (by vm_compute) || lia.
  - destruct (Z.of_nat (length (p :: pw)) <? 6) eqn:Hlen;
      destruct (6 <=? Z.of_nat (length (p :: pw))) eqn:Hge;
      (by vm_compute) || lia.
Qed.

Lemma getItem_setItem_ne ls key key' v :
  key ≠ key' →
  Storage.getItem key' (Storage.setItem key v ls) = Storage.getItem key' ls.
Proof. intros. by apply lookup_insert_ne. Qed.

End Forms.

(** X4: [validateForm] accepts a form exactly when the user name is not
    blank and the password has six characters or more; [handleSubmit] of
    a form it rejects records at least one error, leaves the storage as it
    is and does nothing else. *)
Theorem LoginForm_validation (st : LoginForm.State)
    (ls : gmap string (list N)) :
  (LoginForm.validateForm (LoginForm.formData st)).2
  = well_formed (LoginForm.formData st)
  ∧ (well_formed (LoginForm.formData st) = false →
     LoginForm.handleSubmit st ls
     = ({| LoginForm.formData := LoginForm.formData st;
           LoginForm.errors := LoginForm.newErrors (LoginForm.formData st);
           LoginForm.isLoading := LoginForm.isLoading st |}, ls, [])
     ∧ LoginForm.newErrors (LoginForm.formData st) ≠ ∅).
Proof.
  split; [apply validateForm_well_formed|]. intros Hbad.
  pose proof (validateForm_well_formed (LoginForm.formData st)) as Hv.
  rewrite Hbad in Hv. unfold LoginForm.handleSubmit.
  unfold LoginForm.validateForm in *. cbn [snd] in Hv. rewrite Hv.
  split; [done|]. intros Hempty. rewrite Hempty in Hv. by vm_compute in Hv.
Qed.

Lemma LoginForm_validation_witness :
  well_formed (LoginForm.formData short_password) = false
  ∧ (LoginForm.handleSubmit short_password no_snapshot).1.2 = no_snapshot
  ∧ (LoginForm.handleSubmit short_password no_snapshot).2 = [].
Proof.
  assert (well_formed (LoginForm.formData short_password) = false) as H
    by (by vm_compute).
  split; [exact H|].
  destruct (proj2 (LoginForm_validation short_password no_snapshot) H)
    as [-> _].
  by split.
Defined.

(** X5: a form that passes validation opens the protected routes of the
    application with the flag and closes the public one; the logout of
    that application closes them again and removes every key the
    application wrote, leaving the other keys of the storage alone. *)
Theorem LoginForm_session_round_trip (st : LoginForm.State)
    (ls : gmap string (list N)) :
  well_formed (LoginForm.formData st) = true →
  let ls1 := (LoginForm.handleSubmit st ls).1.2 in
  let ls2 := (Logout.Chatbot_handleLogout
                (UploadMulti.handleUpload
                   (UploadMulti.handleFileSelect [pdf_3MB] UploadMulti.initial)
                   ls1).1.2).1 in
  App.route ls1 "/upload" = Render
  ∧ App.route ls1 "/chat" = Render
  ∧ App.route ls1 "/" = Redirect "/upload"
  ∧ Storage.getItem "username" ls1
    = Some (LoginForm.username (LoginForm.formData st))
  ∧ App.route ls2 "/upload" = Redirect "/"
  ∧ App.route ls2 "/chat" = Redirect "/"
  ∧ App.route ls2 "/" = Render
  ∧ Storage.getItem "isAuthenticated" ls2 = None
  ∧ Storage.getItem "username" ls2 = None
  ∧ Storage.getItem "filesUploaded" ls2 = None
  ∧ ∀ key, key ≠ "isAuthenticated" → key ≠ "username" →
           key ≠ "filesUploaded" →
           Storage.getItem key ls2 = Storage.getItem key ls.
Proof.
  intros Hok ls1 ls2.
  pose proof (validateForm_well_formed (LoginForm.formData st)) as Hv.
  rewrite Hok in Hv.
  assert (ls1 = Storage.setItem "username"
                  (LoginForm.username (LoginForm.formData st))
                  (Storage.setItem "isAuthenticated" (JS.lit "true") ls))
    as Hls1.
  { subst ls1. unfold LoginForm.handleSubmit.
    unfold LoginForm.validateForm in *. cbn [snd] in Hv. by rewrite Hv. }
  assert (Storage.getItem "isAuthenticated" ls1 = Some (JS.lit "true"))
    as Hflag.
  { rewrite Hls1, getItem_setItem_ne by done. apply getItem_setItem. }
  assert (ls2 = Storage.removeItem "filesUploaded"
                  (Storage.removeItem "username"
                     (Storage.removeItem "isAuthenticated"
                        (Storage.setItem "filesUploaded" (JS.lit "true")
                           ls1)))) as Hls2 by done.
  assert (Storage.getItem "isAuthenticated" ls2 = None) as Hnone.
  { rewrite Hls2, !getItem_removeItem_ne by done. apply getItem_removeItem. }
  unfold App.route, App.ProtectedRoute, App.PublicRoute.
  cbn [String.eqb Ascii.eqb Bool.eqb]. rewrite Hflag, Hnone.
  split_and!; try done.
  - rewrite Hls1. apply getItem_setItem.
  - rewrite Hls2, getItem_removeItem_ne by done. apply getItem_removeItem.
  - rewrite Hls2. apply getItem_removeItem.
  - intros key H1 H2 H3.
    rewrite Hls2, !getItem_removeItem_ne, getItem_setItem_ne by done.
    by rewrite Hls1, !getItem_setItem_ne.
Qed.

Lemma LoginForm_session_round_trip_witness :
  well_formed (LoginForm.formData ann) = true
  ∧ App.route (LoginForm.handleSubmit ann no_snapshot).1.2 "/chat" = Render.
Proof.
  assert (well_formed (LoginForm.formData ann) = true) as H
    by (by vm_compute).
  split; [exact H|].
  exact (proj1 (proj2 (LoginForm_session_round_trip ann no_snapshot H))).
Defined.




(** ** The upload views *)

Section Uploads.

Lemma failure_text_nonempty err : Upload.failure_text err ≠ [].
Proof.
  unfold Upload.failure_text. destruct (timed_out err); [done|].
  unfold payload_error.
  destruct (response err) as [r|].
  - destruct (data_error r) as [[|c m]|]; try done; by destruct (message err).
  - by destruct (message err).
Qed.

(** In the trace of one step of the Upload view every navigation comes
    with its timer and its post. *)
Lemma Upload_step_counts ev st :
  let t := (Upload.step ev st).2 in
  count is_navigate t = count is_settle_timer t
  ∧ (count is_navigate t ≤ count is_upload t)%nat.
Proof.
  destruct ev as [sel | ps r]; simpl.
  - unfold Upload.handleFileChange.
    destruct sel as [f|]; [destruct (size f >? _)|];
      cbn [snd]; unfold count; cbn; lia.
  - unfold Upload.handleSubmit.
    destruct (Upload.file st); [destruct r|];
      cbn [snd]; unfold count; cbn; lia.
Qed.

End Uploads.

(** X8: in the Upload view a selection that is rejected for its size does
    not replace the file accepted before: the next submission transfers
    that earlier file. *)
Theorem Upload_rejected_selection_keeps_previous
    (f1 f2 : File) (percents : list Z) (result : outcome UploadBody)
    (st : Upload.State) :
  size f1 <= Upload.MAX_SIZE → size f2 > Upload.MAX_SIZE →
  let r := Upload.run [Upload.FileChange (Some f1);
                       Upload.FileChange (Some f2);
                       Upload.Submit percents result] st in
  Upload.file r.1 = Some f1
  ∧ head r.2 = Some (HttpPost "/upload" "document" (name f1) (size f1))
  ∧ count is_upload r.2 = 1%nat.
Proof.
  intros H1 H2.
  assert ((size f1 >? Upload.MAX_SIZE) = false) as Hle by lia.
  assert ((size f2 >? Upload.MAX_SIZE) = true) as Hgt by lia.
  cbn [Upload.run Upload.step]. unfold Upload.handleFileChange.
  rewrite Hle, Hgt. cbn [Upload.file]. unfold Upload.handleSubmit.
  cbn [Upload.file]. by destruct result.
Qed.

Lemma Upload_rejected_selection_keeps_previous_witness :
  size pdf_3MB <= Upload.MAX_SIZE ∧ size pdf_6MB > Upload.MAX_SIZE
  ∧ head (Upload.run [Upload.FileChange (Some pdf_3MB);
                      Upload.FileChange (Some pdf_6MB);
                      Upload.Submit [100] acknowledged] Upload.initial).2
    = Some (HttpPost "/upload" "document" (name pdf_3MB) (size pdf_3MB)).
Proof.
  assert (size pdf_3MB <= Upload.MAX_SIZE) as H1 by (by vm_compute).
  assert (size pdf_6MB > Upload.MAX_SIZE) as H2 by (by vm_compute).
  split; [exact H1|]. split; [exact H2|].
  exact (proj1 (proj2 (Upload_rejected_selection_keeps_previous
                         pdf_3MB pdf_6MB [100] acknowledged Upload.initial
                         H1 H2))).
Defined.

(** X9: a transfer that fails in the Upload view always shows a non-empty
    message, ends the loading state, keeps the file, schedules no
    navigation and leaves the success flag as it was, so the same file
    can be submitted again at once. *)
Theorem Upload_failure_is_shown (f : File) (percents : list Z)
    (err : AxiosError) (st : Upload.State) :
  Upload.file st = Some f →
  let r := Upload.handleSubmit percents (Rejected err) st in
  Upload.error r.1 ≠ []
  ∧ Upload.isLoading r.1 = false
  ∧ Upload.file r.1 = Some f
  ∧ Upload.success r.1 = Upload.success st
  ∧ count is_navigate r.2 = 0%nat
  ∧ ∀ percents' result,
      head (Upload.handleSubmit percents' result r.1).2
      = Some (HttpPost "/upload" "document" (name f) (size f)).
Proof.
  intros Hf. unfold Upload.handleSubmit. rewrite Hf. cbn [fst snd Upload.file
    Upload.error Upload.isLoading Upload.success].
  split_and!; try done.
  - apply failure_text_nonempty.
  - intros percents' result. by destruct result.
Qed.

Lemma Upload_failure_is_shown_witness :
  let st := (Upload.handleFileChange (Some pdf_3MB) Upload.initial).1 in
  Upload.file st = Some pdf_3MB
  ∧ Upload.error (Upload.handleSubmit [30] (Rejected network_down) st).1 ≠ [].
Proof.
  intros st. split; [reflexivity|].
  exact (proj1 (Upload_failure_is_shown pdf_3MB [30] network_down st eq_refl)).
Defined.

(** X10: whatever the user does in the Upload view, a navigation is only
    ever issued from the settle timer of a transfer: in every run the
    navigations are as many as the timers of 1500ms and no more than the
    transfers. *)
Theorem Upload_navigates_only_after_transfer
    (evs : list Upload.event) (st : Upload.State) :
  let t := (Upload.run evs st).2 in
  count is_navigate t = count is_settle_timer t
  ∧ (count is_navigate t ≤ count is_upload t)%nat.
Proof.
  revert st. induction evs as [|ev evs IH]; intros st;
    [unfold count; cbn; lia|].
  cbn [Upload.run].
  pose proof (Upload_step_counts ev st) as [H1 H2].
  destruct (Upload.step ev st) as [st1 t1]. cbn [snd] in H1, H2.
  specialize (IH st1). cbv zeta in IH.
  destruct (Upload.run evs st1) as [st2 t2]. cbn [snd] in *.
  rewrite !count_app. lia.
Qed.

(** X11: the Upload view without validation holds whatever file was
    picked and transfers it on the next submission, whatever its size. *)
Theorem UploadPlain_transfers_any_file (f : File)
    (result : outcome UploadBody) (st : UploadPlain.State) :
  let held := (UploadPlain.handleFileChange (Some f) st).1 in
  UploadPlain.file held = Some f
  ∧ UploadPlain.error held = []
  ∧ head (UploadPlain.handleSubmit result held).2
    = Some (HttpPost "/upload" "document" (name f) (size f))
  ∧ (∀ err,
       UploadPlain.error (UploadPlain.handleSubmit (Rejected err) held).1 ≠ []
       ∧ count is_navigate (UploadPlain.handleSubmit (Rejected err) held).2
         = 0%nat).
Proof.
  cbv zeta. unfold UploadPlain.handleSubmit, UploadPlain.handleFileChange.
  cbn [fst snd UploadPlain.file UploadPlain.error].
  split_and!; try done.
  - by destruct result.
  - intros err. split; [|done].
    unfold UploadPlain.failure_text, payload_error.
    destruct (response err) as [r|]; [|done].
    by destruct (data_error r) as [[|c m]|].
Qed.

(** ** The multi-file Upload view *)

Section MultiFile.

Lemma error_key_inj i j :
  UploadMulti.error_key i = UploadMulti.error_key j → i = j.
Proof.
  unfold UploadMulti.error_key. intros H.
  apply (inj (String.app "file_")) in H. by apply (inj pretty) in H.
Qed.

(** The entries [select] sets have keys of positions it has seen. *)
Lemma select_keys_from index files j :
  (j < index)%nat →
  (UploadMulti.select index files).2 !! UploadMulti.error_key j = None.
Proof.
  revert index. induction files as [|f files IH]; intros index Hj;
    cbn [UploadMulti.select].
  - done.
  - specialize (IH (S index) ltac:(lia)).
    destruct (UploadMulti.select (S index) files) as [valid errs].
    cbn [snd] in IH.
    assert (UploadMulti.error_key index ≠ UploadMulti.error_key j) as Hne.
    { intros Heq. apply error_key_inj in Heq. lia. }
    repeat case_match; cbn [snd]; by rewrite ?lookup_insert_ne.
Qed.

Lemma select_verdicts index files i f :
  files !! i = Some f →
  (UploadMulti.select index files).2 !! UploadMulti.error_key (index + i)
  = verdict f.
Proof.
  revert index i. induction files as [|g files IH]; intros index i Hi;
    [done|]. cbn [UploadMulti.select].
  pose proof (select_keys_from (S index) files index ltac:(lia)) as Hfresh.
  destruct i as [|i].
  - injection Hi as ->. rewrite Nat.add_0_r.
    destruct (UploadMulti.select (S index) files) as [valid errs].
    cbn [snd] in Hfresh. unfold verdict.
    repeat case_match; cbn [snd]; by rewrite ?lookup_insert_eq.
  - specialize (IH (S index) i Hi).
    replace (index + S i)%nat with (S index + i)%nat by lia.
    destruct (UploadMulti.select (S index) files) as [valid errs].
    cbn [snd] in IH.
    assert (UploadMulti.error_key index
            ≠ UploadMulti.error_key (S index + i)) as Hne.
    { intros Heq. apply error_key_inj in Heq. lia. }
    repeat case_match; cbn [snd]; by rewrite ?lookup_insert_ne.
Qed.

Lemma select_valid index files :
  (UploadMulti.select index files).1 = UploadMulti.validFiles files.
Proof.
  revert index. induction files as [|f files IH]; intros index; [done|].
  cbn [UploadMulti.select]. specialize (IH (S index)).
  destruct (UploadMulti.select (S index) files) as [valid errs].
  cbn [fst] in IH. unfold UploadMulti.validFiles in *. cbn [List.filter].
  destruct (UploadMulti.includes _ _); cbn [negb andb];
    [destruct (size f >? _)|]; cbn [negb fst]; by rewrite IH.
Qed.

Lemma select_counts index files :
  (base.size (UploadMulti.select index files).2
   + length (UploadMulti.select index files).1 = length files)%nat.
Proof.
  revert index. induction files as [|f files IH]; intros index.
  - cbn. by rewrite map_size_empty.
  - cbn [UploadMulti.select length]. specialize (IH (S index)).
    pose proof (select_keys_from (S index) files index ltac:(lia)) as Hfresh.
    destruct (UploadMulti.select (S index) files) as [valid errs].
    cbn [fst snd] in *.
    repeat case_match; cbn [fst snd length];
      rewrite ?map_size_insert_None by done; lia.
Qed.

Lemma keep_others_from indexToRemove index files :
  UploadMulti.keep_others indexToRemove index files
  = if decide (indexToRemove < index)%nat then files
    else delete (indexToRemove - index)%nat files.
Proof.
  revert index. induction files as [|f files IH]; intros index.
  - by case_decide.
  - cbn [UploadMulti.keep_others]. rewrite IH.
    destruct (Nat.eqb_spec index indexToRemove) as [-> | Hne]; cbn [negb].
    + replace (indexToRemove - indexToRemove)%nat with 0%nat by lia.
      repeat case_decide; try lia. done.
    + repeat case_decide; try lia; try done.
      replace (indexToRemove - index)%nat
        with (S (indexToRemove - S index)) by lia.
      done.
Qed.

End MultiFile.

(** X12: [handleFileSelect] sorts every picked file into exactly one of two
    places: the selection, which is the sub-list of the files of an allowed
    type within 10MB, in the order picked, or the errors object, under the
    key of its position, with the type error taking precedence over the
    size error; the entries and the selected files add up to the files
    picked. *)
Theorem UploadMulti_selection_partitions (picked : list File)
    (st : UploadMulti.State) :
  let st' := UploadMulti.handleFileSelect picked st in
  UploadMulti.selectedFiles st' = UploadMulti.validFiles picked
  ∧ (base.size (UploadMulti.errors st')
     + length (UploadMulti.selectedFiles st') = length picked)%nat
  ∧ (∀ i f, picked !! i = Some f →
            UploadMulti.errors st' !! UploadMulti.error_key i = verdict f
            ∧ (verdict f = None ↔ In f (UploadMulti.selectedFiles st')))
  ∧ (∀ f, In f (UploadMulti.selectedFiles st') →
          size f <= UploadMulti.MAX_SIZE).
Proof.
  unfold UploadMulti.handleFileSelect. cbv zeta.
  pose proof (select_valid 0 picked) as Hvalid.
  pose proof (select_counts 0 picked) as Hcount.
  pose proof (select_verdicts 0 picked) as Hverdict.
  destruct (UploadMulti.select 0 picked) as [valid errs].
  cbn [fst snd UploadMulti.selectedFiles UploadMulti.errors] in *.
  assert (∀ f, In f valid → verdict f = None) as Hin.
  { intros f. rewrite Hvalid. unfold UploadMulti.validFiles.
    rewrite filter_In. intros [_ H]. unfold verdict.
    apply andb_true_iff in H as [-> H]. apply negb_true_iff in H.
    by rewrite H. }
  split_and!; try done.
  - intros i f Hi. split; [by apply (Hverdict i f)|]. split; [|apply Hin].
    intros Hnone. rewrite Hvalid. unfold UploadMulti.validFiles.
    rewrite filter_In. split.
    + apply list_elem_of_In. by eapply list_elem_of_lookup_2.
    + unfold verdict in Hnone.
      destruct (UploadMulti.includes _ _); [|done].
      by destruct (size f >? _).
  - intros f Hf. apply Hin in Hf. unfold verdict in Hf.
    destruct (negb _); [done|].
    destruct (size f >? UploadMulti.MAX_SIZE) eqn:Hsz; [done|lia].
Qed.

Lemma UploadMulti_selection_partitions_witness :
  let st' := UploadMulti.handleFileSelect [pdf_3MB; picture; pdf_12MB]
               UploadMulti.initial in
  [pdf_3MB; picture; pdf_12MB] !! 2%nat = Some pdf_12MB
  ∧ UploadMulti.errors st' !! "file_2" = Some (UploadMulti.too_large pdf_12MB)
  ∧ UploadMulti.selectedFiles st' = [pdf_3MB].
Proof.
  intros st'.
  destruct (UploadMulti_selection_partitions [pdf_3MB; picture; pdf_12MB]
              UploadMulti.initial) as (Hsel & _ & Hverdict & _).
  split; [reflexivity|].
  split; [exact (proj1 (Hverdict 2%nat pdf_12MB eq_refl))|].
  exact Hsel.
Defined.

(** X13: [removeFile] removes exactly the file at the given position and
    keeps the others in order; a position past the end removes nothing. *)
Theorem UploadMulti_removeFile_deletes (indexToRemove : nat)
    (st : UploadMulti.State) :
  let files := UploadMulti.selectedFiles st in
  let files' := UploadMulti.selectedFiles
                  (UploadMulti.removeFile indexToRemove st) in
  files' = take indexToRemove files ++ drop (S indexToRemove) files
  ∧ ((indexToRemove < length files)%nat →
     length files' = (length files - 1)%nat)
  ∧ ((length files ≤ indexToRemove)%nat → files' = files)
  ∧ UploadMulti.errors (UploadMulti.removeFile indexToRemove st)
    = UploadMulti.errors st.
Proof.
  cbv zeta. unfold UploadMulti.removeFile. cbn [UploadMulti.selectedFiles
    UploadMulti.errors].
  rewrite keep_others_from. case_decide; [lia|].
  rewrite Nat.sub_0_r. split_and!; try done.
  - apply delete_take_drop.
  - intros Hlt. apply length_delete. by apply lookup_lt_is_Some.
  - intros Hge. rewrite delete_take_drop.
    rewrite take_ge, drop_ge by lia. by rewrite app_nil_r.
Qed.

Lemma UploadMulti_removeFile_deletes_witness :
  let st := UploadMulti.handleFileSelect [pdf_3MB; pdf_3MB; pdf_6MB]
              UploadMulti.initial in
  (1 < length (UploadMulti.selectedFiles st))%nat
  ∧ length (UploadMulti.selectedFiles (UploadMulti.removeFile 1 st)) = 2%nat.
Proof.
  intros st.
  assert (1 < length (UploadMulti.selectedFiles st))%nat as H
    by (vm_compute; lia).
  split; [exact H|].
  by rewrite (proj1 (proj2 (UploadMulti_removeFile_deletes 1 st)) H).
Defined.

(** X14: [handleUpload] of the multi-file view never reaches the network.
    With an empty selection it only records the general error; with a
    selection it always ends as completed, with the progress at 100, the
    [filesUploaded] flag stored and one navigation to the chat view. *)
Theorem UploadMulti_handleUpload_sends_nothing (st : UploadMulti.State)
    (ls : gmap string (list N)) :
  let r := UploadMulti.handleUpload st ls in
  count is_request r.2 = 0%nat
  ∧ (UploadMulti.selectedFiles st = [] →
     r.1.2 = ls ∧ r.2 = []
     ∧ UploadMulti.errors r.1.1 !! "general"
       = Some (JS.lit "Please select at least one file to upload."))
  ∧ (UploadMulti.selectedFiles st ≠ [] →
     Storage.getItem "filesUploaded" r.1.2 = Some (JS.lit "true")
     ∧ UploadMulti.uploadProgress r.1.1 = 100
     ∧ UploadMulti.isUploading r.1.1 = false
     ∧ UploadMulti.errors r.1.1 = ∅
     ∧ UploadMulti.selectedFiles r.1.1 = UploadMulti.selectedFiles st
     ∧ List.filter is_navigate r.2 = [Navigate "/chat"]).
Proof.
  cbv zeta. unfold UploadMulti.handleUpload.
  destruct (UploadMulti.selectedFiles st) as [|f files] eqn:Hsel;
    cbn [fst snd UploadMulti.errors UploadMulti.uploadProgress
         UploadMulti.isUploading UploadMulti.selectedFiles];
    split_and!; try done.
  intros _. split_and!; try done. apply getItem_setItem.
Qed.

Lemma UploadMulti_handleUpload_sends_nothing_witness :
  let st := UploadMulti.handleFileSelect [pdf_3MB] UploadMulti.initial in
  UploadMulti.selectedFiles UploadMulti.initial = []
  ∧ (UploadMulti.handleUpload UploadMulti.initial no_snapshot).1.2
    = no_snapshot
  ∧ UploadMulti.selectedFiles st ≠ []
  ∧ Storage.getItem "filesUploaded"
      (UploadMulti.handleUpload st no_snapshot).1.2 = Some (JS.lit "true").
Proof.
  intros st.
  assert (UploadMulti.selectedFiles st ≠ []) as Hsel by (by vm_compute).
  split; [reflexivity|].
  split; [exact (proj1 (proj1 (proj2 (UploadMulti_handleUpload_sends_nothing
                                        UploadMulti.initial no_snapshot))
                          eq_refl))|].
  split; [exact Hsel|].
  exact (proj1 (proj2 (proj2 (UploadMulti_handleUpload_sends_nothing
                                st no_snapshot)) Hsel)).
Defined.

(** X15: the simulated progress of the multi-file view starts at 0, moves
    in steps of 10, never goes back and never passes 90, however many
    times the interval fires; from the ninth callback on it stays at 90. *)
Theorem UploadMulti_simulated_progress (ticks : nat) :
  0 <= UploadMulti.simulated ticks <= 90
  ∧ UploadMulti.simulated ticks <= UploadMulti.simulated (S ticks)
  ∧ UploadMulti.simulated ticks = 10 * Z.min (Z.of_nat ticks) 9.
Proof.
  assert (UploadMulti.simulated ticks = 10 * Z.min (Z.of_nat ticks) 9) as H.
  { induction ticks as [|n IH]; [done|].
    cbn [UploadMulti.simulated]. rewrite IH. unfold UploadMulti.tick.
    destruct (10 * Z.min (Z.of_nat n) 9 >=? 90) eqn:Hcmp; lia. }
  split_and!; try lia.
  cbn [UploadMulti.simulated]. rewrite H. unfold UploadMulti.tick.
  destruct (10 * Z.min (Z.of_nat ticks) 9 >=? 90); lia.
Qed.

(** ** The file list of the ChatUpload view *)

(** X16: [fetchFiles] with retries shows the list of the first GET that
    does not fail, if one of the [retryCount + 1] attempts does not, and
    makes no further GET after it. *)
Theorem fetchFiles_retry_first_success (n : nat)
    (backend : nat → outcome FilesResponse) (k i : nat)
    (body : FilesBody) (cache : list DocumentRecord) :
  (i ≤ n)%nat →
  (∀ j, (j < i)%nat → failed (backend (k + j)%nat) = true) →
  backend (k + i)%nat = Resolved {| data := Some body |} →
  let r := ChatUpload.fetchFiles_retry n backend k cache in
  r.1.1 = match files body with Some l => l | None => [] end
  ∧ attempts r = S i
  ∧ retry_timers r = i.
Proof.
  revert k i. induction n as [|n IH]; intros k i Hi Hfail Hok.
  - assert (i = 0%nat) as -> by lia. rewrite Nat.add_0_r in Hok.
    cbn [ChatUpload.fetchFiles_retry]. rewrite Hok. by vm_compute.
  - destruct i as [|i].
    + rewrite Nat.add_0_r in Hok.
      cbn [ChatUpload.fetchFiles_retry]. rewrite Hok. by vm_compute.
    + rewrite fetchFiles_retry_failed_S.
      2:{ rewrite <- (Nat.add_0_r k). apply Hfail. lia. }
      destruct (IH (S k) i) as (Hl & Ha & Ht).
      * lia.
      * intros j Hj. replace (S k + j)%nat with (k + S j)%nat by lia.
        apply Hfail. lia.
      * by replace (S k + i)%nat with (k + S i)%nat by lia.
      * cbv zeta in *. split; [done|].
        unfold attempts, retry_timers in *. cbn [fst snd app] in *.
        set (t := _ ++ _) in *. rewrite !count_cons.
        simpl (is_refresh _). simpl (is_retry_timer _). cbv iota. lia.
Qed.

Lemma fetchFiles_retry_first_success_witness :
  let backend := λ k : nat, match k with
                            | O => Rejected network_down
                            | _ => listing (Some two_documents)
                            end in
  (1 ≤ 1)%nat
  ∧ failed (backend 0%nat) = true
  ∧ (ChatUpload.fetchFiles_retry 1 backend 0 one_document).1.1
    = two_documents.
Proof.
  intros backend. split; [lia|]. split; [reflexivity|].
  refine (proj1 (fetchFiles_retry_first_success 1 backend 0 1
                   {| files := Some two_documents |} one_document
                   _ _ eq_refl)); [lia|].
  intros [|j] Hj; [reflexivity | lia].
Defined.

(** X17: an upload that fails in the ChatUpload view leaves the file list
    as it is, makes no GET of the file list, ends the uploading state and
    raises exactly one alert, in both variants; one that succeeds and
    whose listing carries a list shows exactly that list. *)
Theorem ChatUpload_upload_outcomes (f : File) (st : ChatUpload.State) :
  size f <= ChatUpload.MAX_SIZE →
  (∀ err files backend,
     ChatUpload.handleFileChange (Some f) (Rejected err) files st
     = ({| ChatUpload.uploadedFiles := ChatUpload.uploadedFiles st;
           ChatUpload.isUploading := false |},
        [HttpPost "/upload" "file" (name f) (size f); ConsoleError;
         Alert (ChatUpload.failure_alert err)])
     ∧ ChatUpload.handleFileChange_retry (Some f) (Rejected err) backend st
       = ({| ChatUpload.uploadedFiles := ChatUpload.uploadedFiles st;
             ChatUpload.isUploading := false |},
          [HttpPost "/upload" "document" (name f) (size f); ConsoleError;
           Alert (ChatUpload.failure_alert err)])
     ∧ ChatUpload.failure_alert err ≠ [])
  ∧ (∀ body l backend,
       backend 0%nat = listing (Some l) →
       (ChatUpload.handleFileChange (Some f) (Resolved body)
          (backend 0%nat) st).1
       = {| ChatUpload.uploadedFiles := l; ChatUpload.isUploading := false |}
       ∧ (ChatUpload.handleFileChange_retry (Some f) (Resolved body)
            backend st).1
         = {| ChatUpload.uploadedFiles := l;
              ChatUpload.isUploading := false |}).
Proof.
  intros Hsz.
  assert ((size f >? ChatUpload.MAX_SIZE) = false) as Hle by lia.
  unfold ChatUpload.handleFileChange, ChatUpload.handleFileChange_retry.
  rewrite Hle. split.
  - intros err files backend. split_and!; try done.
    unfold ChatUpload.failure_alert, payload_error.
    destruct (response err) as [r|]; [|done].
    by destruct (data_error r) as [[|c m]|].
  - intros body l backend Hb. rewrite Hb. split; [done|].
    cbn [ChatUpload.fetchFiles_retry]. by rewrite Hb.
Qed.

Lemma ChatUpload_upload_outcomes_witness :
  let st := {| ChatUpload.uploadedFiles := one_document;
               ChatUpload.isUploading := false |} in
  size pdf_3MB <= ChatUpload.MAX_SIZE
  ∧ (λ _ : nat, listing (Some two_documents)) 0%nat
    = listing (Some two_documents)
  ∧ ChatUpload.uploadedFiles
      (ChatUpload.handleFileChange_retry (Some pdf_3MB) acknowledged
         (λ _, listing (Some two_documents)) st).1
    = two_documents.
Proof.
  intros st.
  assert (size pdf_3MB <= ChatUpload.MAX_SIZE) as H by (by vm_compute).
  split; [exact H|]. split; [reflexivity|]. unfold acknowledged.
  by rewrite (proj2 (proj2 (ChatUpload_upload_outcomes pdf_3MB st H)
                       {| upload_message := Some (JS.lit "ok") |}
                       two_documents (λ _, listing (Some two_documents))
                       eq_refl)).
Defined.

(** ** The chat views *)

Section BlankInput.

Lemma trim_start_blank s : blank s = true → JS.trim_start s = [].
Proof.
  induction s as [|c s IH]; [done|]. cbn [blank forallb JS.trim_start].
  intros H. apply andb_true_iff in H as [-> H]. by apply IH.
Qed.

Lemma trim_start_nonblank s :
  blank s = false →
  ∃ c r, JS.trim_start s = c :: r ∧ JS.is_space c = false.
Proof.
  induction s as [|c s IH]; [done|]. cbn [blank forallb JS.trim_start].
  destruct (JS.is_space c) eqn:Hc; cbn [andb]; [done|]. intros _. by eexists _, _.
Qed.

Lemma blank_app s1 s2 : blank (s1 ++ s2) = blank s1 && blank s2.
Proof. unfold blank. apply forallb_app. Qed.

Lemma blank_rev s : blank (rev s) = blank s.
Proof.
  induction s as [|c s IH]; [done|]. cbn [rev]. rewrite blank_app, IH.
  cbn [blank forallb]. rewrite andb_true_r. apply andb_comm.
Qed.

Lemma trim_blank s : JS.trim s = [] ↔ blank s = true.
Proof.
  unfold JS.trim. split.
  - intros H. destruct (blank s) eqn:Hs; [done|]. exfalso.
    destruct (trim_start_nonblank s Hs) as (c & r & Hcr & Hc).
    rewrite Hcr in H.
    destruct (trim_start_nonblank (rev (c :: r))) as (c' & r' & Hcr' & _).
    { rewrite blank_rev. cbn [blank forallb]. by rewrite Hc. }
    rewrite Hcr' in H. cbn [rev] in H. by destruct (rev r').
  - intros H. by rewrite (trim_start_blank s H).
Qed.

End BlankInput.

(** X18: a text of white space only is never sent: in all three chat
    views the send handler then changes nothing and starts no call. A
    text with a visible character, in a view that is not waiting, is
    sent in one post, trimmed by the Chatbot of Chatbot.js and by
    ChatUpload, and as typed by the Chatbot with the persisted
    conversation. *)
Theorem Chat_blank_input_is_ignored (s : list N) :
  (blank s = true →
   (∀ now w, Chatbot.inputMessage (Chatbot.view w) = s →
             Chatbot.handleSendMessage now w = (w, []))
   ∧ (∀ w, ChatbotStored.message (ChatbotStored.view w) = s →
           ChatbotStored.handleSubmit w = (w, []))
   ∧ (∀ w, ChatUploadChat.input w = s →
           ChatUploadChat.sendMessage w = (w, [])))
  ∧ (blank s = false →
     (∀ now w, Chatbot.inputMessage (Chatbot.view w) = s →
               Chatbot.isLoading (Chatbot.view w) = false →
               (Chatbot.handleSendMessage now w).2
               = [HttpPostJson "/chat" "message" (JS.trim s)])
     ∧ (∀ w, ChatbotStored.message (ChatbotStored.view w) = s →
             ChatbotStored.isLoading (ChatbotStored.view w) = false →
             head (ChatbotStored.handleSubmit w).2
             = Some (HttpPostJson "/chat" "message" s))
     ∧ (∀ w, ChatUploadChat.input w = s →
             (ChatUploadChat.sendMessage w).2
             = [HttpPostJson "/chat" "query" (JS.trim s)])
     ∧ JS.trim s ≠ []).
Proof.
  split.
  - intros Hs. apply trim_blank in Hs. split_and!.
    + intros now w Hw. unfold Chatbot.handleSendMessage. by rewrite Hw, Hs.
    + intros w Hw. unfold ChatbotStored.handleSubmit. by rewrite Hw, Hs.
    + intros w Hw. unfold ChatUploadChat.sendMessage. by rewrite Hw, Hs.
  - intros Hs.
    assert (JS.trim s ≠ []) as Hne.
    { intros H. apply trim_blank in H. congruence. }
    destruct (JS.trim s) as [|c r] eqn:Htrim; [done|]. split_and!.
    + intros now w Hw Hidle. unfold Chatbot.handleSendMessage.
      by rewrite Hw, Htrim, Hidle.
    + intros w Hw Hidle. unfold ChatbotStored.handleSubmit.
      by rewrite Hw, Htrim, Hidle.
    + intros w Hw. unfold ChatUploadChat.sendMessage. by rewrite Hw, Htrim.
    + done.
Qed.

Lemma Chat_blank_input_is_ignored_witness :
  let w := (Chatbot.run [Chatbot.Type_ (JS.lit "   ")] (Chatbot.initial 0)).1 in
  blank (JS.lit "   ") = true
  ∧ Chatbot.inputMessage (Chatbot.view w) = JS.lit "   "
  ∧ Chatbot.handleSendMessage 5 w = (w, [])
  ∧ blank (JS.lit " hi ") = false
  ∧ JS.trim (JS.lit " hi ") ≠ [].
Proof.
  intros w.
  assert (blank (JS.lit "   ") = true) as H1 by reflexivity.
  assert (blank (JS.lit " hi ") = false) as H2 by reflexivity.
  split; [exact H1|]. split; [reflexivity|].
  split; [exact (proj1 (proj1 (Chat_blank_input_is_ignored (JS.lit "   ")) H1)
                   5 w eq_refl)|].
  split; [exact H2|].
  exact (proj2 (proj2 (proj2 (proj2 (Chat_blank_input_is_ignored
                                       (JS.lit " hi ")) H2)))).
Defined.

Section LoadingFlag.

Lemma Chatbot_step_in_step ev w :
  in_step (Chatbot.isLoading (Chatbot.view w)) (Chatbot.outstanding w) →
  in_step (Chatbot.isLoading (Chatbot.view (Chatbot.step ev w).1))
          (Chatbot.outstanding (Chatbot.step ev w).1).
Proof.
  intros [Hload Hle]. destruct ev as [s | now | result now | now];
    cbn [Chatbot.step fst]; try done.
  - unfold Chatbot.handleSendMessage.
    destruct (negb _ || Chatbot.isLoading (Chatbot.view w)) eqn:Hguard;
      [done|].
    apply orb_false_iff in Hguard as [_ Hidle]. rewrite Hidle in Hload.
    destruct (Chatbot.outstanding w); [|done]. split; [done | cbn; lia].
  - unfold Chatbot.settle.
    destruct (Chatbot.outstanding w) as [|c [|c' others]] eqn:Hout;
      cbn [length] in Hle; try lia.
    + cbn [fst]. by rewrite Hout.
    + destruct result; (split; [done | cbn; lia]).
Qed.

Lemma Chatbot_run_in_step evs w :
  in_step (Chatbot.isLoading (Chatbot.view w)) (Chatbot.outstanding w) →
  in_step (Chatbot.isLoading (Chatbot.view (Chatbot.run evs w).1))
          (Chatbot.outstanding (Chatbot.run evs w).1).
Proof.
  revert w. induction evs as [|ev evs IH]; intros w Hw; [done|].
  cbn [Chatbot.run].
  pose proof (Chatbot_step_in_step ev w Hw) as H1.
  destruct (Chatbot.step ev w) as [w1 t1]. cbn [fst] in H1.
  specialize (IH w1 H1). by destruct (Chatbot.run evs w1) as [w2 t2].
Qed.

Lemma Stored_step_in_step ev w :
  in_step (ChatbotStored.isLoading (ChatbotStored.view w))
          (ChatbotStored.outstanding w) →
  in_step (ChatbotStored.isLoading
             (ChatbotStored.view (ChatbotStored.step ev w).1))
          (ChatbotStored.outstanding (ChatbotStored.step ev w).1).
Proof.
  intros [Hload Hle]. destruct ev as [s | | result | confirmed];
    cbn [ChatbotStored.step fst]; try done.
  - unfold ChatbotStored.handleSubmit.
    destruct (negb _ || ChatbotStored.isLoading (ChatbotStored.view w))
      eqn:Hguard; [done|].
    apply orb_false_iff in Hguard as [_ Hidle]. rewrite Hidle in Hload.
    destruct (ChatbotStored.outstanding w); [|done].
    split; [done | cbn; lia].
  - unfold ChatbotStored.settle.
    destruct (ChatbotStored.outstanding w) as [|c [|c' others]] eqn:Hout;
      cbn [length] in Hle; try lia.
    + cbn [fst]. by rewrite Hout.
    + split; [done | cbn; lia].
  - by destruct confirmed.
Qed.

Lemma Stored_run_in_step evs w :
  in_step (ChatbotStored.isLoading (ChatbotStored.view w))
          (ChatbotStored.outstanding w) →
  in_step (ChatbotStored.isLoading
             (ChatbotStored.view (ChatbotStored.run evs w).1))
          (ChatbotStored.outstanding (ChatbotStored.run evs w).1).
Proof.
  revert w. induction evs as [|ev evs IH]; intros w Hw; [done|].
  cbn [ChatbotStored.run].
  pose proof (Stored_step_in_step ev w Hw) as H1.
  destruct (ChatbotStored.step ev w) as [w1 t1]. cbn [fst] in H1.
  specialize (IH w1 H1). by destruct (ChatbotStored.run evs w1) as [w2 t2].
Qed.

End LoadingFlag.

(** X19: in both Chatbot views the loading flag is set exactly while a
    call is out: whatever the user does and however the calls settle, the
    view is never left loading without a call, nor waiting for a call
    without showing it. *)
Theorem Chat_loading_exactly_while_waiting :
  (∀ evs t0,
     let w := (Chatbot.run evs (Chatbot.initial t0)).1 in
     Chatbot.isLoading (Chatbot.view w) = waiting (Chatbot.outstanding w))
  ∧ (∀ evs ls,
       let w := (ChatbotStored.run evs (ChatbotStored.initial ls)).1 in
       ChatbotStored.isLoading (ChatbotStored.view w)
       = waiting (ChatbotStored.outstanding w)).
Proof.
  split.
  - intros evs t0.
    apply (Chatbot_run_in_step evs (Chatbot.initial t0)).
    split; [done | cbn; lia].
  - intros evs ls.
    apply (Stored_run_in_step evs (ChatbotStored.initial ls)).
    split; [done | cbn; lia].
Qed.

Section Turns.

Lemma turns_send n : turns n false ++ [Chatbot.user] = turns n true.
Proof. induction n as [|n IH]; [done|]. cbn [turns app]. by rewrite IH. Qed.

Lemma turns_settle n : turns n true ++ [Chatbot.bot] = turns (S n) false.
Proof. induction n as [|n IH]; [done|]. cbn [turns app] in *. by rewrite IH. Qed.

Lemma turns_length n b : length (turns n b) = (2 * n + b2n b)%nat.
Proof.
  induction n as [|n IH]; [by destruct b|]. cbn [turns length]. rewrite IH. lia.
Qed.



(** One step of the Chatbot that does not clear the log keeps the shape
    of the log and accounts for the posts. *)
Lemma Chatbot_step_turns ev w n :
  unclearing ev = true →
  in_step (Chatbot.isLoading (Chatbot.view w)) (Chatbot.outstanding w) →
  map Chatbot.sender (Chatbot.messages (Chatbot.view w))
  = Chatbot.bot :: turns n (Chatbot.isLoading (Chatbot.view w)) →
  ∃ n',
    map Chatbot.sender (Chatbot.messages (Chatbot.view (Chatbot.step ev w).1))
    = Chatbot.bot
        :: turns n' (Chatbot.isLoading (Chatbot.view (Chatbot.step ev w).1))
    ∧ (n' + b2n (Chatbot.isLoading (Chatbot.view (Chatbot.step ev w).1))
       = n + b2n (Chatbot.isLoading (Chatbot.view w))
         + chat_posts (Chatbot.step ev w).2)%nat.
Proof.
  intros Hev [Hload Hle] Hlog.
  destruct ev as [s | now | result now | now]; [| | |done];
    cbn [Chatbot.step].
  - exists n. cbn [fst snd]. split; [done|]. unfold chat_posts, count. cbn. lia.
  - unfold Chatbot.handleSendMessage.
    destruct (negb _ || Chatbot.isLoading (Chatbot.view w)) eqn:Hguard.
    + exists n. cbn [fst snd]. split; [done|]. unfold chat_posts, count.
      cbn. lia.
    + apply orb_false_iff in Hguard as [_ Hidle]. rewrite Hidle in *.
      exists n. cbn [fst snd Chatbot.view Chatbot.messages Chatbot.isLoading].
      rewrite map_app, Hlog. cbn [map app Chatbot.sender].
      rewrite turns_send. split; [done|]. unfold chat_posts, count. cbn. lia.
  - unfold Chatbot.settle.
    destruct (Chatbot.outstanding w) as [|c others] eqn:Hout.
    + exists n. cbn [fst snd]. split; [done|]. unfold chat_posts, count.
      cbn. lia.
    + cbn [waiting] in Hload. rewrite Hload in *.
      exists (S n). destruct result;
        cbn [fst snd Chatbot.view Chatbot.messages Chatbot.isLoading];
        rewrite map_app, Hlog; cbn [map app Chatbot.sender];
        rewrite turns_settle; (split; [done|]);
        unfold chat_posts, count; cbn; lia.
Qed.

End Turns.

(** X20: as long as the chat is not cleared, the log of the Chatbot of
    Chatbot.js is the greeting followed by complete turns, user then
    assistant, plus the open user message while a call is out; the turns
    and the open message are as many as the posts made. *)
Theorem Chatbot_log_alternates (evs : list Chatbot.event) (t0 : Z) :
  forallb unclearing evs = true →
  let r := Chatbot.run evs (Chatbot.initial t0) in
  let loading := Chatbot.isLoading (Chatbot.view r.1) in
  ∃ n,
    map Chatbot.sender (Chatbot.messages (Chatbot.view r.1))
    = Chatbot.bot :: turns n loading
    ∧ (n + b2n loading = chat_posts r.2)%nat
    ∧ length (Chatbot.messages (Chatbot.view r.1))
      = (1 + 2 * n + b2n loading)%nat.
Proof.
  intros Hevs.
  assert (∀ evs w n,
            forallb unclearing evs = true →
            in_step (Chatbot.isLoading (Chatbot.view w))
                    (Chatbot.outstanding w) →
            map Chatbot.sender (Chatbot.messages (Chatbot.view w))
            = Chatbot.bot :: turns n (Chatbot.isLoading (Chatbot.view w)) →
            ∃ n',
              map Chatbot.sender
                (Chatbot.messages (Chatbot.view (Chatbot.run evs w).1))
              = Chatbot.bot
                  :: turns n' (Chatbot.isLoading
                                 (Chatbot.view (Chatbot.run evs w).1))
              ∧ (n' + b2n (Chatbot.isLoading
                             (Chatbot.view (Chatbot.run evs w).1))
                 = n + b2n (Chatbot.isLoading (Chatbot.view w))
                   + chat_posts (Chatbot.run evs w).2)%nat) as Hrun.
  { clear. induction evs as [|ev evs IH]; intros w n Hevs Hstep Hlog.
    - exists n. cbn [Chatbot.run fst snd]. split; [done|].
      unfold chat_posts, count. cbn. lia.
    - cbn [forallb] in Hevs. apply andb_true_iff in Hevs as [Hev Hevs].
      cbn [Chatbot.run].
      destruct (Chatbot_step_turns ev w n Hev Hstep Hlog) as (n1 & Hlog1 & Hn1).
      pose proof (Chatbot_step_in_step ev w Hstep) as Hstep1.
      destruct (Chatbot.step ev w) as [w1 t1]. cbn [fst snd] in *.
      destruct (IH w1 n1 Hevs Hstep1 Hlog1) as (n2 & Hlog2 & Hn2).
      destruct (Chatbot.run evs w1) as [w2 t2]. cbn [fst snd] in *.
      exists n2. split; [done|]. unfold chat_posts in *.
      rewrite count_app. lia. }
  destruct (Hrun evs (Chatbot.initial t0) 0%nat Hevs) as (n & Hlog & Hn).
  { split; [done | cbn; lia]. }
  { done. }
  cbv zeta. exists n. split; [done|]. split.
  - cbn [Chatbot.initial Chatbot.view Chatbot.isLoading b2n] in Hn. lia.
  - rewrite <- (length_map Chatbot.sender), Hlog. cbn [length].
    rewrite turns_length. lia.
Qed.

Lemma Chatbot_log_alternates_witness :
  forallb unclearing (asked ++ [Chatbot.Settle answered 2000]) = true
  ∧ length (Chatbot.messages
              (Chatbot.view
                 (Chatbot.run (asked ++ [Chatbot.Settle answered 2000])
                    (Chatbot.initial 0)).1)) = 3%nat.
Proof.
  split; [reflexivity|].
  destruct (Chatbot_log_alternates (asked ++ [Chatbot.Settle answered 2000])
              0 eq_refl) as (n & _ & Hposts & Hlen).
  rewrite Hlen.
  change (Chatbot.isLoading
            (Chatbot.view
               (Chatbot.run (asked ++ [Chatbot.Settle answered 2000])
                  (Chatbot.initial 0)).1)) with false in *.
  change (chat_posts
            (Chatbot.run (asked ++ [Chatbot.Settle answered 2000])
               (Chatbot.initial 0)).2) with 1%nat in Hposts.
  cbn [b2n] in *. lia.
Defined.

Section StoredTurns.


End StoredTurns.




(** X23: clearing the chat while a call is out has opposite outcomes in
    the two Chatbot views. In the Chatbot of Chatbot.js the user message
    is gone for good: when the call settles, the log is the cleared
    greeting followed by the answer alone. In the persisted Chatbot the
    clear is undone: the handler of the call writes back the conversation
    it held, with the user message and the answer, to the view and to the
    snapshot. *)
Theorem Chat_clear_while_waiting :
  (∀ evs t0 now cleared later result,
     let w := (Chatbot.run evs (Chatbot.initial t0)).1 in
     Chatbot.isLoading (Chatbot.view w) = false →
     JS.trim (Chatbot.inputMessage (Chatbot.view w)) ≠ [] →
     let w' := (Chatbot.run [Chatbot.Send now; Chatbot.Clear cleared;
                             Chatbot.Settle result later] w).1 in
     map Chatbot.sender (Chatbot.messages (Chatbot.view w'))
     = [Chatbot.bot; Chatbot.bot]
     ∧ Forall (λ m, Chatbot.sender m ≠ Chatbot.user)
         (Chatbot.messages (Chatbot.view w')))
  ∧ (∀ evs ls result,
       let w := (ChatbotStored.run evs (ChatbotStored.initial ls)).1 in
       ChatbotStored.isLoading (ChatbotStored.view w) = false →
       JS.trim (ChatbotStored.message (ChatbotStored.view w)) ≠ [] →
       let w1 := (ChatbotStored.run
                    [ChatbotStored.Submit; ChatbotStored.Clear true] w).1 in
       let w' := (ChatbotStored.run [ChatbotStored.Settle result] w1).1 in
       ChatbotStored.conversation (ChatbotStored.view w1) = []
       ∧ ChatbotStored.conversation (ChatbotStored.view w')
         = ChatbotStored.conversation (ChatbotStored.view w)
             ++ [ {| ChatbotStored.text :=
                       Some (ChatbotStored.message (ChatbotStored.view w));
                     ChatbotStored.sender := ChatbotStored.user |};
                  match result with
                  | Resolved res => {| ChatbotStored.text := reply res;
                                       ChatbotStored.sender := ChatbotStored.bot |}
                  | Rejected _ => ChatbotStored.errorMessage
                  end ]
       ∧ snapshot_current w').
Proof.
  split.
  - intros evs t0 now cleared later result w Hidle Hinput w'.
    destruct (Chatbot_run_in_step evs (Chatbot.initial t0)) as [Hload _].
    { split; [done | cbn; lia]. }
    fold w in Hload. rewrite Hidle in Hload.
    assert (Chatbot.outstanding w = []) as Hnone
      by (by destruct (Chatbot.outstanding w)).
    subst w'. generalize dependent w. intros w Hidle Hinput _ Hnone.
    cbn [Chatbot.run Chatbot.step]. unfold Chatbot.handleSendMessage.
    rewrite Hidle, Hnone.
    destruct (JS.trim (Chatbot.inputMessage (Chatbot.view w)))
      as [|c question] eqn:Htrim; [done|].
    cbn [JS.truthy negb orb app].
    unfold Chatbot.settle, Chatbot.clearChat.
    cbn [Chatbot.outstanding Chatbot.view Chatbot.messages].
    destruct result; cbn; (split; [done|]); by repeat constructor.
  - intros evs ls result w Hidle Hinput w1 w'.
    destruct (Stored_run_in_step evs (ChatbotStored.initial ls))
      as [Hload _].
    { split; [done | cbn; lia]. }
    fold w in Hload. rewrite Hidle in Hload.
    assert (ChatbotStored.outstanding w = []) as Hnone
      by (by destruct (ChatbotStored.outstanding w)).
    subst w' w1. generalize dependent w. intros w Hidle Hinput _ Hnone.
    cbn [ChatbotStored.run ChatbotStored.step].
    unfold ChatbotStored.handleSubmit. rewrite Hidle, Hnone.
    destruct (JS.trim (ChatbotStored.message (ChatbotStored.view w)))
      as [|c question] eqn:Htrim; [done|].
    cbn [JS.truthy negb orb app ChatbotStored.setConversation
         ChatbotStored.clearChat ChatbotStored.view ChatbotStored.outstanding
         ChatbotStored.isLoading ChatbotStored.message fst snd].
    unfold ChatbotStored.settle, snapshot_current.
    cbn [ChatbotStored.outstanding ChatbotStored.setConversation
         ChatbotStored.view ChatbotStored.conversation
         ChatbotStored.storage fst snd].
    split_and!; try done.
    + by rewrite <- app_assoc.
    + unfold ChatbotStored.save. apply getItem_setItem.
Qed.

Lemma Chat_clear_while_waiting_witness :
  let w := (Chatbot.run [Chatbot.Type_ (JS.lit "Summarize the document")]
              (Chatbot.initial 0)).1 in
  Chatbot.isLoading (Chatbot.view w) = false
  ∧ JS.trim (Chatbot.inputMessage (Chatbot.view w)) ≠ []
  ∧ map Chatbot.sender
      (Chatbot.messages
         (Chatbot.view
            (Chatbot.run [Chatbot.Send 1000; Chatbot.Clear 1500;
                          Chatbot.Settle answered 2000] w).1))
    = [Chatbot.bot; Chatbot.bot].
Proof.
  intros w.
  assert (Chatbot.isLoading (Chatbot.view w) = false) as H1 by reflexivity.
  assert (JS.trim (Chatbot.inputMessage (Chatbot.view w)) ≠ []) as H2
    by (vm_compute; done).
  split; [exact H1|]. split; [exact H2|].
  exact (proj1 (proj1 Chat_clear_while_waiting
                  [Chatbot.Type_ (JS.lit "Summarize the document")]
                  0 1000 1500 2000 answered H1 H2)).
Defined.

Section StoredSnapshot.



End StoredSnapshot.



(** X25: a confirmed clear of the persisted Chatbot does not leave the
    storage without a snapshot: the removal is followed by the save of
    the emptied conversation, so the key holds the text of the empty
    array, and a reload restores an empty conversation rather than finding
    nothing. The input, the loading flag and the calls that are out are
    untouched. A declined clear changes nothing and has no effect. *)
Theorem Stored_clearChat_leaves_empty_snapshot (w : ChatbotStored.World) :
  let r := ChatbotStored.clearChat true w in
  r.2 = [RemoveItem "chatConversation";
         SetItem "chatConversation" (JS.lit "[]")]
  ∧ Storage.getItem "chatConversation" (ChatbotStored.storage r.1)
    = Some (JS.lit "[]")
  ∧ ChatbotStored.load (ChatbotStored.storage r.1)
    = ChatbotStored.Restored (JSON.Arr [])
  ∧ ChatbotStored.conversation (ChatbotStored.view r.1) = []
  ∧ ChatbotStored.message (ChatbotStored.view r.1)
    = ChatbotStored.message (ChatbotStored.view w)
  ∧ ChatbotStored.isLoading (ChatbotStored.view r.1)
    = ChatbotStored.isLoading (ChatbotStored.view w)
  ∧ ChatbotStored.outstanding r.1 = ChatbotStored.outstanding w
  ∧ ChatbotStored.clearChat false w = (w, []).
Proof.
  cbn [ChatbotStored.clearChat ChatbotStored.setConversation fst snd
       ChatbotStored.view ChatbotStored.storage ChatbotStored.conversation
       ChatbotStored.message ChatbotStored.isLoading
       ChatbotStored.outstanding].
  assert (JSON.stringify (ChatbotStored.array []) = JS.lit "[]") as Htext
    by (by vm_compute).
  unfold ChatbotStored.load, ChatbotStored.save.
  rewrite getItem_setItem, Htext. split_and!; try done.
Qed.

Section ChatUploadLog.

Lemma ChatUpload_step_log ev w :
  let r := ChatUploadChat.step ev w in
  ∃ added,
    ChatUploadChat.messages r.1 = ChatUploadChat.messages w ++ added
    ∧ (length added + length (ChatUploadChat.outstanding r.1)
       = length (ChatUploadChat.outstanding w) + 2 * chat_posts r.2)%nat.
Proof.
  destruct ev as [s| |result]; cbn [ChatUploadChat.step].
  - exists []. cbn. rewrite app_nil_r. split; [done | unfold chat_posts; cbn; lia].
  - unfold ChatUploadChat.sendMessage.
    destruct (negb _).
    + exists []. cbn. rewrite app_nil_r.
      split; [done | unfold chat_posts; cbn; lia].
    + eexists. cbn [fst snd ChatUploadChat.messages
                    ChatUploadChat.outstanding].
      split; [done|]. rewrite length_app. unfold chat_posts. cbn. lia.
  - unfold ChatUploadChat.settle.
    destruct (ChatUploadChat.outstanding w) as [|q others] eqn:Hout.
    + exists []. cbn. rewrite app_nil_r, Hout.
      split; [done | unfold chat_posts; cbn; lia].
    + destruct result; eexists;
        cbn [fst snd ChatUploadChat.messages ChatUploadChat.outstanding];
        (split; [done|]); unfold chat_posts; cbn; lia.
Qed.

End ChatUploadLog.

(** X26: the chat of the ChatUpload view only ever appends to its log,
    and no message is lost: over any sequence of typing, sends and
    settled calls, the log afterwards is the log before followed by new
    messages, and the new messages together with the calls still out
    number the calls out before plus two for every request sent (the
    question and the answer it will get). *)
Theorem ChatUpload_log_is_append_only
    (evs : list ChatUploadChat.event) (w : ChatUploadChat.World) :
  let r := ChatUploadChat.run evs w in
  ∃ added,
    ChatUploadChat.messages r.1 = ChatUploadChat.messages w ++ added
    ∧ (length added + length (ChatUploadChat.outstanding r.1)
       = length (ChatUploadChat.outstanding w) + 2 * chat_posts r.2)%nat.
Proof.
  revert w. induction evs as [|ev evs IH]; intros w.
  - exists []. cbn. rewrite app_nil_r.
    split; [done | unfold chat_posts; cbn; lia].
  - cbn [ChatUploadChat.run].
    destruct (ChatUpload_step_log ev w) as (a1 & Hm1 & Hn1).
    destruct (ChatUploadChat.step ev w) as [w1 t1].
    destruct (IH w1) as (a2 & Hm2 & Hn2).
    destruct (ChatUploadChat.run evs w1) as [w2 t2].
    cbn [fst snd] in *. exists (a1 ++ a2). split.
    + by rewrite Hm2, Hm1, <- app_assoc.
    + unfold chat_posts in *. rewrite count_app, length_app. lia.
Qed.

(** X27: the answer the ChatUpload view with retries puts in its log is
    never empty, for a reply as for a failure. The view of chatUpload.jsx,
    which joins the texts of the matches, shows an empty answer in exactly
    one case: the backend returned a single match whose text is missing or
    empty. *)
Theorem ChatUpload_empty_answer :
  (∀ res, ChatUploadChat.botReply res ≠ [])
  ∧ (∀ err, ChatUploadChat.errorReply err ≠ [])
  ∧ (∀ matches,
       ChatUploadChat.matchesReply matches = []
       ↔ matches = Some [None] ∨ matches = Some [Some []]).
Proof.
  split_and!.
  - intros [[[|c r]|]]; by cbn.
  - intros err. unfold ChatUploadChat.errorReply. by cbn.
  - intros [[|m ms]|]; cbn [ChatUploadChat.matchesReply].
    + split; [by vm_compute | by intros [H|H]].
    + destruct ms as [|m' ms]; cbn [map ChatUploadChat.join_lines].
      * destruct m as [[|c t]|]; split; try done; auto;
          by intros [H|H].
      * split; [|by intros [H|H]].
        intros H. by apply app_eq_nil in H as [_ H].
    + split; [by vm_compute | by intros [H|H]].
Qed.
